(** * nanolocal: the SelfAgent coordination core

    A shallow embedding of
      - [nanobot/utils/file_lock.py]           (FileLock, file_lock)
      - [nanobot/agent/tools/selfagent_tools.py] (LockedWriteFileTool)
      - [nanobot/agent/selfagent.py]           (observation buffers,
                                                reflection loop, agent loop)
    followed by the properties of the coordination core.

    Conventions of the embedding.
      - A Python [str] is a list of Unicode code points ([list N]).
      - Wall-clock time is read in whole milliseconds, rounded down; a
        5.0 s timeout is 5000.  For a timeout of a whole number of
        milliseconds the test [time.time() - start_time < timeout] is
        decided by these readings, whatever the floating-point values.
      - Code that can raise returns a [res]; [try/except Exception] is the
        combinator [catch_Exception].
      - Every [await] is a suspension point of the cooperative scheduler:
        what the rest of the system does meanwhile is read from an explicit
        environment, so that each function of the model is executable. *)

From Stdlib Require Import ZArith List Lia Bool.
From stdpp Require Import base option list gmap strings pretty.

Local Open Scope Z_scope.

(** ** Python strings *)

Module Str.

Definition str := list N.

(** A literal whose characters are all ASCII. *)
Definition lit (s : string) : str :=
  map Ascii.N_of_ascii (String.list_ascii_of_string s).

(** [s.startswith(p)] *)
Fixpoint startswith (p s : str) : bool :=
  match p, s with
  | [], _ => true
  | _ :: _, [] => false
  | a :: p', b :: s' => N.eqb a b && startswith p' s'
  end.

(** [p in s] for two strings: [p] occurs in [s] as a contiguous run. *)
Fixpoint contains (p s : str) : bool :=
  startswith p s
  || match s with
     | [] => false
     | _ :: s' => contains p s'
     end.

(** [str.isspace] for one code point (the characters [str.strip()]
    removes when called without argument). *)
Definition isspace (c : N) : bool :=
  ((9 <=? c) && (c <=? 13) || (28 <=? c) && (c <=? 32)
   || (c =? 133) || (c =? 160) || (c =? 5760)
   || (8192 <=? c) && (c <=? 8202)
   || (c =? 8232) || (c =? 8233) || (c =? 8239) || (c =? 8287)
   || (c =? 12288))%N.

Fixpoint lstrip (s : str) : str :=
  match s with
  | c :: s' => if isspace c then lstrip s' else s
  | [] => []
  end.

Definition rstrip (s : str) : str := rev (lstrip (rev s)).

(** [s.strip()] *)
Definition strip (s : str) : str := rstrip (lstrip s).

(** [s.lower()].  The Unicode case mapping is outside the sources at
    hand: it is the parameter [lower_cp], which gives the code points that
    replace one code point of the string, given the text before it and the
    text after it (the mapping of a capital sigma depends on them). *)
Definition case_mapping := str -> N -> str -> list N.

Fixpoint lower_in (lower_cp : case_mapping) (before s after : str) : str :=
  match s with
  | [] => []
  | c :: s' => lower_cp before c (s' ++ after) ++ lower_in lower_cp (before ++ [c]) s' after
  end.

Definition lower (lower_cp : case_mapping) (s : str) : str :=
  lower_in lower_cp [] s [].

(** What the mapping does on ASCII: [A-Z] to [a-z], everything else fixed. *)
Definition ascii_lower (c : N) : N :=
  if ((65 <=? c) && (c <=? 90))%N then (c + 32)%N else c.

(** [s[:n]] for [0 <= n]. *)
Definition slice_to (n : nat) (s : str) : str := firstn n s.

End Str.
Import Str.

(** ** Exceptions *)

(** The part of Python's exception hierarchy the code distinguishes:
    [except Exception] catches [Exception] and its subclasses only, while
    [asyncio.CancelledError] (and [KeyboardInterrupt], [SystemExit]) derive
    from [BaseException] directly. *)
Inductive exn :=
  | CancelledError
  | OtherBaseException (cls : string)
  | Exception (cls : string) (msg : string).

Inductive res (A : Type) :=
  | Ok (a : A)
  | Raise (e : exn).
Arguments Ok {A} a.
Arguments Raise {A} e.

Definition is_Exception (e : exn) : bool :=
  match e with
  | Exception _ _ => true
  | _ => false
  end.

(** [str(e)], the text of an exception in a message. *)
Definition exn_text (e : exn) : str :=
  match e with
  | Exception _ msg => lit msg
  | _ => []
  end.

(** [try: m  except Exception: h] *)
Definition catch_Exception {A} (m : res A) (h : exn -> res A) : res A :=
  match m with
  | Ok a => Ok a
  | Raise e => if is_Exception e then h e else Raise e
  end.

(** ** nanobot/utils/file_lock.py *)

Module FileLock.

(** The marker files, by path: a path bound in the map is a file that
    exists, with that text as its content. *)
Abbreviation FS := (gmap str str).

Record World := mkWorld {
  fs : FS;
  clock : Z                       (* [time.time()], in milliseconds *)
}.

(** [Path.exists()], for a path the operating system lets the caller
    examine.  (Where it does not, for want of a permission on a directory
    or for a name too long, Python raises [OSError] from this call, which
    stands outside every [try] of the file: such paths are not part of
    this model.) *)
Definition file_exists (p : str) (m : FS) : bool := bool_decide (is_Some (m !! p)).

(** The file operations take the fault the operating system answers
    with, if any ([None]: the call goes through).

    [Path.write_text] opens the file for writing, which creates it or
    empties it, and writes then.  It can fail before the file is opened,
    and nothing has changed; or afterwards, and the file is there with
    the first [kept] code points of the text, none at all when the first
    write is refused. *)
Inductive WriteFault :=
  | OpenFails (msg : string)
  | WriteFails (kept : nat) (msg : string).

Definition write_text (fault : option WriteFault) (p c : str) (m : FS) : res unit * FS :=
  match fault with
  | None => (Ok tt, <[p := c]> m)
  | Some (OpenFails msg) => (Raise (Exception "OSError" msg), m)
  | Some (WriteFails kept msg) => (Raise (Exception "OSError" msg), <[p := take kept c]> m)
  end.

(** A failed read and a failed unlink leave the files as they were. *)

Definition read_text (fault : option string) (p : str) (m : FS) : res str :=
  match fault with
  | Some msg => Raise (Exception "OSError" msg)
  | None =>
      match m !! p with
      | Some c => Ok c
      | None => Raise (Exception "FileNotFoundError" "no such file")
      end
  end.

Definition unlink (fault : option string) (p : str) (m : FS) : res FS :=
  match fault with
  | Some msg => Raise (Exception "OSError" msg)
  | None =>
      match m !! p with
      | Some _ => Ok (delete p m)
      | None => Raise (Exception "FileNotFoundError" "no such file")
      end
  end.

(** The object of class [FileLock] (lines 24-34). *)
Record t := mk {
  filepath : str;
  lockfile : str;
  timeout : Z;                    (* milliseconds *)
  is_main_agent : bool;
  _acquired : bool
}.

(** [FileLock.__init__] *)
Definition init (filepath : str) (timeout : Z) (is_main_agent : bool) : t :=
  {| filepath := filepath;
     lockfile := filepath ++ lit ".nanobot_lock";
     timeout := timeout;
     is_main_agent := is_main_agent;
     _acquired := false |}.

Definition set_acquired (b : bool) (l : t) : t :=
  {| filepath := filepath l; lockfile := lockfile l; timeout := timeout l;
     is_main_agent := is_main_agent l; _acquired := b |}.

(** The faults met by the file operations of one pass through the loop
    body: the write of line 46, the read of line 55, the write of line 59. *)
Record PollIO := mkPollIO {
  create_fault : option WriteFault;
  read_fault : option string;
  override_fault : option WriteFault
}.

Definition no_fault : PollIO :=
  {| create_fault := None; read_fault := None; override_fault := None |}.

(** What happens while the caller is suspended in [asyncio.sleep(0.1)]:
    the other tasks and processes change the files ([others]), the
    reading of the clock goes up by [took] milliseconds, and the task may
    be cancelled.  [took] is about 100; it can be 99, since the difference
    of two readings is rounded and the event loop has a clock of its own.
    It is never less than 1: the wall clock is taken not to stand still or
    to be set back while a caller waits. *)
Record Sleep := mkSleep {
  others : FS -> FS;
  took : positive;
  cancelled : bool
}.

Definition quiet : Sleep :=
  {| others := fun m => m; took := 100%positive; cancelled := false |}.

(** Everything [acquire] reads from outside: the process id, the
    rendering of a float as text (not modelled), and, for the k-th pass
    through the loop, the faults and the sleep that follows it. *)
Record Env := mkEnv {
  getpid : N;
  repr_time : Z -> str;
  io : nat -> PollIO;
  sleeps : nat -> Sleep
}.

(** Line 45: [f"{os.getpid()}|{time.time()}|{'main' if ... else 'selfagent'}"] *)
Definition marker_content (e : Env) (now : Z) (main : bool) : str :=
  lit (pretty (getpid e)) ++ lit "|" ++ repr_time e now ++ lit "|"
  ++ (if main then lit "main" else lit "selfagent").

(** Line 58: [f"{os.getpid()}|{time.time()}|main"] *)
Definition override_content (e : Env) (now : Z) : str :=
  lit (pretty (getpid e)) ++ lit "|" ++ repr_time e now ++ lit "|main".

(** The outcome of one pass through the loop body, lines 42-63:
    [Acquired] is the [return True] (after [self._acquired = True]),
    [Retry] falls through to the sleep of line 66. *)
Inductive Poll :=
  | Acquired (m : FS)
  | Retry (m : FS).

Definition files_of (p : Poll) : FS :=
  match p with
  | Acquired m => m
  | Retry m => m
  end.

(** Lines 42-50.  The handler is [pass]: after a write that failed the
    pass goes on with the files as the failure left them. *)
Definition poll_create (e : Env) (f : PollIO) (now : Z) (l : t) (m : FS) : res Poll :=
  if negb (file_exists (lockfile l) m) then
    match write_text (create_fault f) (lockfile l)
            (marker_content e now (is_main_agent l)) m with
    | (Ok _, m') => Ok (Acquired m')
    | (Raise x, m') => catch_Exception (Raise x) (fun _ => Ok (Retry m'))
    end
  else Ok (Retry m).

(** Lines 53-63. *)
Definition poll_override (e : Env) (f : PollIO) (now : Z) (l : t) (m : FS) : res Poll :=
  if is_main_agent l && file_exists (lockfile l) m then
    match read_text (read_fault f) (lockfile l) m with
    | Raise x => catch_Exception (Raise x) (fun _ => Ok (Retry m))
    | Ok content =>
        if contains (lit "selfagent") content then
          match write_text (override_fault f) (lockfile l) (override_content e now) m with
          | (Ok _, m') => Ok (Acquired m')
          | (Raise x, m') => catch_Exception (Raise x) (fun _ => Ok (Retry m'))
          end
        else Ok (Retry m)
    end
  else Ok (Retry m).

(** Lines 42-63. *)
Definition poll (e : Env) (f : PollIO) (now : Z) (l : t) (m : FS) : res Poll :=
  match poll_create e f now l m with
  | Raise x => Raise x
  | Ok (Acquired m') => Ok (Acquired m')
  | Ok (Retry m') => poll_override e f now l m'
  end.

Definition sleep (s : Sleep) (m : FS) (now : Z) : World :=
  {| fs := others s m; clock := now + Z.pos (took s) |}.

(** The [while] loop of lines 40-68; [k] counts the passes already made.
    The result is the value returned or the exception that escaped, the
    object and the world afterwards; [None] only when [fuel] runs out. *)
Fixpoint acquire_loop (fuel : nat) (e : Env) (k : nat) (start_time : Z)
    (l : t) (w : World) : option (res bool * t * World) :=
  match fuel with
  | O => None
  | S fuel' =>
      if clock w - start_time <? timeout l then
        match poll e (io e k) (clock w) l (fs w) with
        | Raise x => Some (Raise x, l, w)
        | Ok (Acquired m') =>
            Some (Ok true, set_acquired true l, {| fs := m'; clock := clock w |})
        | Ok (Retry m') =>
            let w' := sleep (sleeps e k) m' (clock w) in
            if cancelled (sleeps e k) then Some (Raise CancelledError, l, w')
            else acquire_loop fuel' e (S k) start_time l w'
        end
      else Some (Ok false, l, w)
  end.

(** The reading of the clock goes up at every sleep, so the loop is left
    after at most [timeout + 1] passes. *)
Definition acquire_fuel (l : t) : nat := Z.to_nat (timeout l) + 2.

(** [FileLock.acquire], lines 36-68. *)
Definition acquire (e : Env) (l : t) (w : World) : option (res bool * t * World) :=
  acquire_loop (acquire_fuel l) e 0 (clock w) l w.

(** [FileLock.release], lines 70-77. *)
Definition release (unlink_fault : option string) (l : t) (m : FS) : res (t * FS) :=
  if _acquired l && file_exists (lockfile l) m then
    match catch_Exception (unlink unlink_fault (lockfile l) m) (fun _ => Ok m) with
    | Raise x => Raise x
    | Ok m' => Ok (set_acquired false l, m')
    end
  else Ok (l, m).

(** [m'] differs from [m] at the path [p] at most, where a file that was
    there still is. *)
Definition touches_only (p : str) (m m' : FS) : Prop :=
  (forall q, q <> p -> m' !! q = m !! q)
  /\ (is_Some (m !! p) -> is_Some (m' !! p)).

(** The role tag of a marker, the last of its [|]-separated fields. *)
Fixpoint role_tag (c : str) : str :=
  match c with
  | [] => []
  | a :: c' => if contains (lit "|") c' then role_tag c'
               else if N.eqb a 124 then c' else a :: c'
  end.

(** What the other tasks alone make of the files over the [n] sleeps
    that follow pass [k]. *)
Fixpoint drift (e : Env) (k n : nat) (m : FS) : FS :=
  match n with
  | O => m
  | S n' => drift e (S k) n' (others (sleeps e k) m)
  end.

(** The time spent in the [n] sleeps that follow pass [k]. *)
Fixpoint waited (e : Env) (k n : nat) : Z :=
  match n with
  | O => 0
  | S n' => Z.pos (took (sleeps e k)) + waited e (S k) n'
  end.

End FileLock.

(** ** The cooperative scheduler over a pool of lock objects *)

(** Between two suspension points a task runs alone, so one pass through
    the body of [acquire]'s loop and one call of [release] are each a single
    step of the system.  A schedule is the list of the steps taken, each
    with what the outside answers; the lock objects of all the tasks, of
    either role, sit in one pool and share the files. *)
Module System.
Import FileLock.

Record state := mkState {
  files : FS;
  pool : list FileLock.t
}.

Inductive action :=
  | DoPoll (i : nat) (e : Env) (f : PollIO) (now : Z)
  | DoRelease (i : nat) (unlink_fault : option string).

Inductive event :=
  | EvAcquired (p : str) (main : bool)      (* [acquire] returned True *)
  | EvRetry (p : str) (main : bool)         (* [acquire] went to sleep *)
  | EvReleased (p : str) (deleted : bool)   (* [release] returned; marker removed? *)
  | EvRaised (x : exn)
  | EvIdle.                                 (* no such object in the pool *)

Definition step (a : action) (s : state) : event * state :=
  match a with
  | DoPoll i e f now =>
      match pool s !! i with
      | None => (EvIdle, s)
      | Some l =>
          match poll e f now l (files s) with
          | Raise x => (EvRaised x, s)
          | Ok (Acquired m') =>
              (EvAcquired (lockfile l) (is_main_agent l),
               {| files := m'; pool := <[i := set_acquired true l]> (pool s) |})
          | Ok (Retry m') =>
              (EvRetry (lockfile l) (is_main_agent l),
               {| files := m'; pool := pool s |})
          end
      end
  | DoRelease i uf =>
      match pool s !! i with
      | None => (EvIdle, s)
      | Some l =>
          match release uf l (files s) with
          | Raise x => (EvRaised x, s)
          | Ok (l', m') =>
              (EvReleased (lockfile l)
                 (file_exists (lockfile l) (files s) && negb (file_exists (lockfile l) m')),
               {| files := m'; pool := <[i := l']> (pool s) |})
          end
      end
  end.

(** The events of a schedule, in order, and the state it ends in. *)
Fixpoint run (sched : list action) (s : state) : list event * state :=
  match sched with
  | [] => ([], s)
  | a :: rest =>
      let '(ev, s1) := step a s in
      let '(evs, s2) := run rest s1 in
      (ev :: evs, s2)
  end.

(** A pool of subordinate callers only. *)
Definition subordinate_only (s : state) : Prop :=
  forall i l, pool s !! i = Some l -> is_main_agent l = false.

(** No two objects of the pool believe they hold the same marker, and an
    object that believes it holds a marker has one on file. *)
Definition exclusive (s : state) : Prop :=
  forall i j li lj,
    pool s !! i = Some li -> pool s !! j = Some lj ->
    lockfile li = lockfile lj ->
    _acquired li = true -> _acquired lj = true ->
    i = j.

Definition backed (s : state) : Prop :=
  forall i l,
    pool s !! i = Some l -> _acquired l = true -> is_Some (files s !! lockfile l).

(** Nobody holds anything yet, as after [__init__]. *)
Definition unheld (s : state) : Prop :=
  forall i l, pool s !! i = Some l -> _acquired l = false.

(** The text a platform prints for the clock has no letter [s] in it: a
    float is printed with digits, a point, a sign and [e], or as [inf] or
    [nan]. *)
Definition float_like (e : Env) : Prop :=
  forall now, 115%N ∉ repr_time e now.

(** The marker at [p] is on file and nobody can take it over: its text
    does not contain [selfagent]. *)
Definition standing (p : str) (s : state) : Prop :=
  exists c, files s !! p = Some c /\ contains (lit "selfagent") c = false.

Definition float_like_schedule (sched : list action) : Prop :=
  Forall (fun a => match a with
                   | DoPoll _ e _ _ => float_like e
                   | DoRelease _ _ => True
                   end) sched.

End System.

(** ** nanobot/agent/tools/selfagent_tools.py *)

Module LockedWriteFileTool.
Import FileLock.

(** The context manager [file_lock] of file_lock.py, lines 89-109, around
    the body of an [async with]. *)
Definition file_lock {A} (e : Env) (unlink_fault : option string)
    (filepath : str) (timeout : Z) (is_main_agent : bool)
    (body : World -> res A * World) (w : World) : option (res A * World) :=
  let lock := FileLock.init filepath timeout is_main_agent in
  match acquire e lock w with
  | None => None
  | Some (Raise x, _, w1) => Some (Raise x, w1)
  | Some (Ok false, _, w1) =>
      Some (Raise (Exception "TimeoutError" "Could not acquire lock"), w1)
  | Some (Ok true, lock1, w1) =>
      let '(r, w2) := body w1 in
      match release unlink_fault lock1 (fs w2) with
      | Raise x => Some (Raise x, w2)
      | Ok (_, m3) => Some (r, {| fs := m3; clock := clock w2 |})
      end
  end.

(** What the class inherits from [WriteFileTool], which is not part of
    the sources at hand: the path resolution and the write itself. *)
Record WriteFileTool := mkWriteFileTool {
  _resolve_path : str -> res str;
  super_execute : str -> str -> World -> res str * World
}.

(** ["潜意识:"] and ["潜意识: "] *)
Definition tag : str := [28508; 24847; 35782; 58]%N.
Definition tag_space : str := [28508; 24847; 35782; 58; 32]%N.

(** Lines 40-42: the content handed to [super().execute]. *)
Definition tagged_content (lower_cp : case_mapping) (filepath content : str) : str :=
  if contains (lit "memory") (lower lower_cp filepath)
     && contains (lit "MEMORY.md") filepath
  then
    if negb (startswith tag (strip content)) then tag_space ++ content
    else content
  else content.

(** The same content, as the rule reads: by the path containing
    [MEMORY.md] alone. *)
Definition tagged_content_spec (filepath content : str) : str :=
  if contains (lit "MEMORY.md") filepath then
    if startswith tag (strip content) then content else tag_space ++ content
  else content.

(** [LockedWriteFileTool.execute], lines 36-44. *)
Definition execute (base : WriteFileTool) (lower_cp : case_mapping)
    (is_main_agent : bool) (e : Env) (unlink_fault : option string)
    (path content : str) (w : World) : option (res str * World) :=
  match _resolve_path base path with
  | Raise x => Some (Raise x, w)
  | Ok filepath =>
      file_lock e unlink_fault filepath 10000 is_main_agent
        (fun w1 => super_execute base path (tagged_content lower_cp filepath content) w1)
        w
  end.

End LockedWriteFileTool.

(** The three other tools of the file put the inherited [execute], which
    is not part of the sources at hand and is a parameter here, inside the
    same lock, with their own timeout. *)

Module LockedReadFileTool.
Import FileLock.

(** [LockedReadFileTool.execute], lines 23-26. *)
Definition execute (_resolve_path : str -> res str)
    (super_execute : str -> Z -> Z -> World -> res str * World)
    (is_main_agent : bool) (e : Env) (unlink_fault : option string)
    (path : str) (limit offset : Z) (w : World) : option (res str * World) :=
  match _resolve_path path with
  | Raise x => Some (Raise x, w)
  | Ok filepath =>
      LockedWriteFileTool.file_lock e unlink_fault filepath 5000 is_main_agent
        (fun w1 => super_execute path limit offset w1) w
  end.

End LockedReadFileTool.

Module LockedEditFileTool.
Import FileLock.

(** [LockedEditFileTool.execute], lines 54-57. *)
Definition execute (_resolve_path : str -> res str)
    (super_execute : str -> str -> str -> World -> res str * World)
    (is_main_agent : bool) (e : Env) (unlink_fault : option string)
    (path old_string new_string : str) (w : World) : option (res str * World) :=
  match _resolve_path path with
  | Raise x => Some (Raise x, w)
  | Ok filepath =>
      LockedWriteFileTool.file_lock e unlink_fault filepath 10000 is_main_agent
        (fun w1 => super_execute path old_string new_string w1) w
  end.

End LockedEditFileTool.

Module LockedListDirTool.
Import FileLock.

(** [LockedListDirTool.execute], lines 67-70. *)
Definition execute (_resolve_path : str -> res str)
    (super_execute : str -> World -> res str * World)
    (is_main_agent : bool) (e : Env) (unlink_fault : option string)
    (path : str) (w : World) : option (res str * World) :=
  match _resolve_path path with
  | Raise x => Some (Raise x, w)
  | Ok dirpath =>
      LockedWriteFileTool.file_lock e unlink_fault dirpath 5000 is_main_agent
        (fun w1 => super_execute path w1) w
  end.

End LockedListDirTool.

(** ** nanobot/agent/selfagent.py *)

Module SelfAgent.

(** *** The observation buffers *)

(** The [data] dictionary of a state change. *)
Definition Data := list (str * str).

(** The dictionaries appended at lines 228-233 and 242-246. *)
Record MessageEvent := mkMessageEvent {
  m_timestamp : str;
  m_direction : str;
  m_channel : str;
  m_preview : str
}.

Record StateEvent := mkStateEvent {
  s_timestamp : str;
  s_event : str;
  s_data : Data
}.

(** [l[-n:]] for [0 < n] *)
Definition last_n {A} (n : nat) (l : list A) : list A :=
  skipn (length l - n) l.

(** Lines 228-237 and 242-250: append, then limit the buffer size. *)
Definition append_limited {A} (buf : list A) (x : A) : list A :=
  let buf' := buf ++ [x] in
  if (1000 <? length buf')%nat then last_n 500 buf' else buf'.

Inductive ReflectionNote :=
  | Analyzing (messages states : nat)             (* line 288 *)
  | Completed (head : str).                       (* line 299 *)

(** The calls made on the logger (and the console), each with the line
    that makes it. *)
Inductive LogRecord :=
  | MainAgentErrorDetected (data : Data)               (* line 254 *)
  | ReflectionLoopStarted                              (* line 265 *)
  | ReflectionLoopCancelled                            (* line 272 *)
  | ReflectionError (e : exn)                          (* line 275 *)
  | Reflection (note : ReflectionNote)                 (* lines 178-181 *)
  | IterationDebug (iteration : nat) (content : str)   (* line 353 *)
  | ExecutingTool (name : str)                         (* line 360 *)
  | AgentLoopError (iteration : nat) (e : exn).        (* line 373 *)

(** The method of the logger each of them is made with. *)
Inductive Level :=
  | DEBUG
  | INFO
  | WARNING
  | ERROR.

(** [logging.DEBUG] and so on. *)
Definition levelno (lvl : Level) : Z :=
  match lvl with
  | DEBUG => 10
  | INFO => 20
  | WARNING => 30
  | ERROR => 40
  end.

Definition level_of (r : LogRecord) : Level :=
  match r with
  | MainAgentErrorDetected _ => WARNING
  | ReflectionLoopStarted => INFO
  | ReflectionLoopCancelled => INFO
  | ReflectionError _ => ERROR
  | Reflection _ => INFO
  | IterationDebug _ _ => DEBUG
  | ExecutingTool _ => INFO
  | AgentLoopError _ _ => ERROR
  end.

(** The two places that print on the console: the handler of lines
    104-124, with the level of the record, and [_log_reflection], line 180. *)
Inductive Line :=
  | HandlerLine (lvl : Level)
  | ReflectionLine.

(** The attributes of the [SelfAgent] object that change while it runs;
    [log] holds the calls made on the logger, in order, whether or not a
    handler shows them. *)
Record Agent := mkAgent {
  _message_buffer : list MessageEvent;
  _state_buffer : list StateEvent;
  _running : bool;
  log : list LogRecord
}.

Definition set_buffers (ms : list MessageEvent) (ss : list StateEvent) (a : Agent) : Agent :=
  {| _message_buffer := ms; _state_buffer := ss;
     _running := _running a; log := log a |}.

Definition set_running (b : bool) (a : Agent) : Agent :=
  {| _message_buffer := _message_buffer a; _state_buffer := _state_buffer a;
     _running := b; log := log a |}.

Definition logged (r : LogRecord) (a : Agent) : Agent :=
  {| _message_buffer := _message_buffer a; _state_buffer := _state_buffer a;
     _running := _running a; log := log a ++ [r] |}.

(** The dictionaries of lines 228-233 and 242-246. *)
Definition message_entry (now direction : str) (channel : option str) (text : str)
    : MessageEvent :=
  {| m_timestamp := now;
     m_direction := direction;
     m_channel := default (lit "unknown") channel;
     m_preview := slice_to 300 text |}.

Definition state_entry (now event : str) (data : Data) : StateEvent :=
  {| s_timestamp := now; s_event := event; s_data := data |}.

(** [_on_message], lines 225-237.  [now] is [datetime.now().isoformat()],
    [channel] the attribute of [msg] if it has one, [text] is [str(msg)]. *)
Definition _on_message (now direction : str) (channel : option str) (text : str)
    (a : Agent) : Agent :=
  let entry := message_entry now direction channel text in
  set_buffers (append_limited (_message_buffer a) entry) (_state_buffer a) a.

(** [_on_main_state_change], lines 239-255.  The call on the logger is
    its last statement and it runs in the task of the main loop: whatever
    the console handler does with the line, there, the buffer and the log
    are as here for the reflection task. *)
Definition _on_main_state_change (now event : str) (data : Data) (a : Agent) : Agent :=
  let entry := state_entry now event data in
  let a' := set_buffers (_message_buffer a) (append_limited (_state_buffer a) entry) a in
  if bool_decide (event = lit "error") then logged (MainAgentErrorDetected data) a'
  else a'.

(** The object as [__init__] leaves it, and once started. *)
Definition fresh : Agent :=
  {| _message_buffer := []; _state_buffer := []; _running := false; log := [] |}.

Definition started : Agent := set_running true fresh.

(** The critical section of [_perform_reflection], lines 279-283. *)
Definition drain (a : Agent) : list MessageEvent * list StateEvent * Agent :=
  (_message_buffer a, _state_buffer a, set_buffers [] [] a).

(** *** Suspension points *)

(** What the other tasks do to the agent while the reflection task is
    suspended in an [await]: the bus and the main loop call the two
    monitors, and [stop] clears [_running] (line 208). *)
Inductive Arrival :=
  | Message (now direction : str) (channel : option str) (text : str)
  | StateChange (now event : str) (data : Data)
  | StopRequested.

Definition deliver (a : Agent) (x : Arrival) : Agent :=
  match x with
  | Message now direction channel text => _on_message now direction channel text a
  | StateChange now event data => _on_main_state_change now event data a
  | StopRequested => set_running false a
  end.

(** The entries a run of arrivals appends to each buffer, in order. *)
Definition message_entries (xs : list Arrival) : list MessageEvent :=
  flat_map (fun x => match x with
                     | Message now direction channel text =>
                         [message_entry now direction channel text]
                     | _ => []
                     end) xs.

Definition state_entries (xs : list Arrival) : list StateEvent :=
  flat_map (fun x => match x with
                     | StateChange now event data => [state_entry now event data]
                     | _ => []
                     end) xs.

(** One suspension: what arrived meanwhile, and whether the task was
    cancelled (the [await] then raises [CancelledError]). *)
Record Wake := mkWake {
  arrivals : list Arrival;
  cancelled : bool
}.

(** The agent, the suspensions still to come (none left: nothing more
    arrives), and the state [E] of the provider and of the tools. *)
Record World (E : Type) := mkWorld {
  agent : Agent;
  tape : list Wake;
  ext : E
}.
Arguments mkWorld {E} _ _ _.
Arguments agent {E} _.
Arguments tape {E} _.
Arguments ext {E} _.

Definition M (E A : Type) : Type := World E -> res A * World E.

Definition ret {E A} (a : A) : M E A := fun w => (Ok a, w).

Definition raise {E A} (x : exn) : M E A := fun w => (Raise x, w).

Definition bind {E A B} (m : M E A) (k : A -> M E B) : M E B :=
  fun w =>
    match m w with
    | (Ok a, w') => k a w'
    | (Raise x, w') => (Raise x, w')
    end.

Notation "'do' x <- m ; k" := (bind m (fun x => k))
  (at level 10, x pattern, m at level 100, k at level 200).
Notation "m ;; k" := (bind m (fun _ => k))
  (at level 100, k at level 200, right associativity).

(** Giving up control at an [await]. *)
Definition suspend {E} : M E unit :=
  fun w =>
    match tape w with
    | [] => (Ok tt, w)
    | k :: rest =>
        let w' := mkWorld (foldl deliver (agent w) (arrivals k)) rest (ext w) in
        (if cancelled k then Raise CancelledError else Ok tt, w')
    end.

(** A call that leaves the agent alone and works on the state [E]. *)
Definition external {E A} (f : E -> res A * E) : M E A :=
  fun w =>
    let '(r, x) := f (ext w) in
    (r, mkWorld (agent w) (tape w) x).

(** *** The reasoning provider and the tool registry *)

Definition Args := list (str * str).

Record ToolCall := mkToolCall {
  tc_id : str;
  tc_name : str;
  tc_arguments : Args
}.

Record Response := mkResponse {
  content : option str;
  has_tool_calls : bool;
  tool_calls : list ToolCall
}.

(** The dictionaries of the conversation, lines 341-342 and 366-370. *)
Record ChatMessage := mkChatMessage {
  role : str;
  tool_call_id : option str;
  msg_content : str
}.

(** The collaborators of the agent, none of them part of the sources at
    hand: [provider.chat] (with the tool definitions and the model it is
    given), [tools.execute], the two uses of [json.dumps], the text Python
    prints for a dictionary, and the console of [rich].

    [console.print] reads its argument as markup and raises [MarkupError]
    on a closing tag that closes nothing.  Both places that call it put
    the message behind a prefix of their own whose tags are closed, and
    the fixed words of the messages hold no bracket: whether a call raises
    is decided by the text interpolated into the message (the console
    being one that can show the characters of the two prefixes).
    [console_print line s] is what printing a message with the text [s]
    in it does, at the place [line]. *)
Record Collaborators (E : Type) := mkCollaborators {
  chat : list ChatMessage -> E -> res Response * E;
  tools_execute : str -> Args -> E -> res str * E;
  dumps_messages : list MessageEvent -> res str;
  dumps_states : list StateEvent -> res str;
  repr_data : Data -> str;
  console_print : Line -> str -> res unit
}.
Arguments chat {E} _ _ _.
Arguments tools_execute {E} _ _ _ _.
Arguments dumps_messages {E} _ _.
Arguments dumps_states {E} _ _.
Arguments repr_data {E} _ _.
Arguments console_print {E} _ _ _.

(** The fields of [SelfAgentConfig] read here ([log_level] as the number
    [getattr(logging, ...)] makes of it), and the bootstrap texts loaded by
    [_load_bootstrap_files]. *)
Record Config := mkConfig {
  max_iterations : Z;
  log_level : Z;
  console_output : bool;
  _identity_content : str;
  _soul_content : str;
  _agents_content : str;
  _tools_content : str
}.

Definition lift {E A} (r : res A) : M E A := fun w => (r, w).

(** [try: m  except Exception as e: h e] *)
Definition try_except_Exception {E A} (m : M E A) (h : exn -> M E A) : M E A :=
  fun w =>
    match m w with
    | (Ok a, w') => (Ok a, w')
    | (Raise x, w') => if is_Exception x then h x w' else (Raise x, w')
    end.

Definition nl : str := [10%N].

(** [sep.join(parts)] *)
Fixpoint join (sep : str) (parts : list str) : str :=
  match parts with
  | [] => []
  | [s] => s
  | s :: rest => s ++ sep ++ join sep rest
  end.

(** [x or ''] and the truth value of an optional string. *)
Definition or_empty (x : option str) : str := default [] x.

Definition truthy (x : option str) : bool :=
  match x with
  | Some (_ :: _) => true
  | _ => false
  end.

Section Reflection.
Context {E : Type} (c : Collaborators E) (cfg : Config).

(** *** The logger, lines 83-126 and 178-181 *)

(** The text interpolated into the message of a call; [None] where the
    message is fixed words and numbers. *)
Definition interpolated (r : LogRecord) : option str :=
  match r with
  | MainAgentErrorDetected data => Some (repr_data c data)
  | ReflectionLoopStarted => None
  | ReflectionLoopCancelled => None
  | ReflectionError e => Some (exn_text e)
  | Reflection (Analyzing _ _) => None
  | Reflection (Completed head) => Some head
  | IterationDebug _ content => Some content
  | ExecutingTool name => Some name
  | AgentLoopError _ e => Some (exn_text e)
  end.

Definition print_line (line : Line) (r : LogRecord) : res unit :=
  match interpolated r with
  | Some s => console_print c line s
  | None => Ok tt
  end.

(** What a call on the logger does besides being made.  The file handler
    is the library's own and deals with its errors itself; the console
    handler is there when [console_output] is set, sees the records at or
    above the level of the logger, and its [emit] has no [try]: what
    [console.print] raises there, the call on the logger raises. *)
Definition emit (r : LogRecord) : res unit :=
  if console_output cfg && (log_level cfg <=? levelno (level_of r))
  then print_line (HandlerLine (level_of r)) r
  else Ok tt.

(** [self.logger.debug], [.info], [.warning], [.error], by [level_of]. *)
Definition logger (r : LogRecord) : M E unit :=
  fun w => (emit r, mkWorld (logged r (agent w)) (tape w) (ext w)).

(** [_log_reflection], lines 178-181: the console first, whatever
    [console_output] says, then the logger. *)
Definition _log_reflection (note : ReflectionNote) : M E unit :=
  lift (print_line ReflectionLine (Reflection note)) ;;
  logger (Reflection note).

(** *** [_run_agent_loop], lines 338-376 *)

(** Lines 359-370: the tool calls of one response, in order. *)
Fixpoint execute_tool_calls (calls : list ToolCall) (messages : list ChatMessage)
    : M E (list ChatMessage) :=
  match calls with
  | [] => ret messages
  | tool_call :: rest =>
      logger (ExecutingTool (tc_name tool_call)) ;;
      suspend ;;
      do result <- external (tools_execute c (tc_name tool_call) (tc_arguments tool_call)) ;
      execute_tool_calls rest
        (messages ++ [ {| role := lit "tool";
                          tool_call_id := Some (tc_id tool_call);
                          msg_content := result |} ])
  end.

(** How the body of the [for] loop is left: by the [return] of line
    356, or to the next iteration with the conversation so far. *)
Inductive Flow :=
  | Return (result : str)
  | Next (messages : list ChatMessage).

(** Lines 347-370. *)
Definition iteration_body (iteration : nat) (messages : list ChatMessage) : M E Flow :=
  suspend ;;
  do response <- external (chat c messages) ;
  logger (IterationDebug (iteration + 1)
            (if truthy (content response)
             then slice_to 100 (or_empty (content response))
             else lit "no content")) ;;
  if negb (has_tool_calls response) then ret (Return (or_empty (content response)))
  else
    do messages' <- execute_tool_calls (tool_calls response) messages ;
    ret (Next messages').

(** Lines 346-374: the body inside its [try], whose handler logs and
    raises again. *)
Definition guarded_iteration (iteration : nat) (messages : list ChatMessage) : M E Flow :=
  try_except_Exception (iteration_body iteration messages)
    (fun x => logger (AgentLoopError (iteration + 1) x) ;; raise x).

(** [for iteration in range(...)], with [n] iterations still to go. *)
Fixpoint agent_loop_from (n iteration : nat) (messages : list ChatMessage) : M E str :=
  match n with
  | O => ret (lit "Max iterations reached")
  | S n' =>
      do flow <- guarded_iteration iteration messages ;
      match flow with
      | Return result => ret result
      | Next messages' => agent_loop_from n' (S iteration) messages'
      end
  end.

Definition _run_agent_loop (system_prompt user_prompt : str) : M E str :=
  agent_loop_from (Z.to_nat (max_iterations cfg)) 0
    [ {| role := lit "system"; tool_call_id := None; msg_content := system_prompt |};
      {| role := lit "user"; tool_call_id := None; msg_content := user_prompt |} ].

(** *** The prompts, lines 301-336 *)

Definition _build_system_prompt : str :=
  join (nl ++ nl)
    [ _identity_content cfg;
      _soul_content cfg;
      _agents_content cfg;
      _tools_content cfg;
      [];
      lit "# SelfAgent Instructions";
      lit "You are an internal monitoring agent.";
      lit "You observe the main agent's activities and can influence it through memory files.";
      [];
      lit "When writing insights to MEMORY.md, use this format:";
      LockedWriteFileTool.tag_space ++ lit "[your insight here]";
      [];
      lit "Available tools: read_file, write_file, edit_file, list_dir, web_search, web_fetch" ].

Definition _build_reflection_prompt (messages : list MessageEvent)
    (states : list StateEvent) : res str :=
  match dumps_messages c (last_n 20 messages) with
  | Raise x => Raise x
  | Ok jm =>
      match dumps_states c (last_n 20 states) with
      | Raise x => Raise x
      | Ok js =>
          Ok (lit "Please reflect on the main agent's recent activity:" ++ nl ++ nl
              ++ lit "## Messages Observed (" ++ lit (pretty (length messages))
              ++ lit " total)" ++ nl ++ jm ++ nl ++ nl
              ++ lit "## State Changes (" ++ lit (pretty (length states))
              ++ lit " total)" ++ nl ++ js ++ nl ++ nl
              ++ lit "## Your Task" ++ nl
              ++ lit "1. Analyze patterns in the main agent's behavior" ++ nl
              ++ lit "2. Identify any issues or inefficiencies" ++ nl
              ++ lit "3. Consider if you should add insights to MEMORY.md" ++ nl
              ++ lit "4. Use your tools to read files if needed" ++ nl ++ nl
              ++ lit "Remember: When writing to MEMORY.md, start with '"
              ++ LockedWriteFileTool.tag ++ lit "'")
      end
  end.

(** *** [_perform_reflection], lines 277-299 *)

Definition is_nil {A} (l : list A) : bool :=
  match l with
  | [] => true
  | _ :: _ => false
  end.

Definition _perform_reflection : M E unit :=
  fun w =>
    let '(messages, states, a') := drain (agent w) in
    let w1 := mkWorld a' (tape w) (ext w) in
    if is_nil messages && is_nil states then (Ok tt, w1)
    else
      (_log_reflection (Analyzing (length messages) (length states)) ;;
       let system_prompt := _build_system_prompt in
       do user_prompt <- lift (_build_reflection_prompt messages states) ;
       do result <- _run_agent_loop system_prompt user_prompt ;
       _log_reflection (Completed (slice_to 100 result))) w1.

(** *** [_reflection_loop], lines 263-275 *)

Inductive Control :=
  | Continue
  | Break.

(** One pass through the body of the [while], lines 268-275. *)
Definition reflection_tick : M E Control :=
  fun w =>
    match (suspend ;; _perform_reflection) w with
    | (Ok _, w') => (Ok Continue, w')
    | (Raise CancelledError, w') => (logger ReflectionLoopCancelled ;; ret Break) w'
    | (Raise x, w') =>
        if is_Exception x then (logger (ReflectionError x) ;; ret Continue) w'
        else (Raise x, w')
    end.

(** The [while self._running] loop.  It has no bound of its own:
    [None] says that it is still running after [fuel] passes. *)
Fixpoint reflection_ticks (fuel : nat) (w : World E) : option (res unit * World E) :=
  if _running (agent w) then
    match fuel with
    | O => None
    | S fuel' =>
        match reflection_tick w with
        | (Ok Continue, w') => reflection_ticks fuel' w'
        | (Ok Break, w') => Some (Ok tt, w')
        | (Raise x, w') => Some (Raise x, w')
        end
    end
  else Some (Ok tt, w).

Definition _reflection_loop (fuel : nat) (w : World E) : option (res unit * World E) :=
  match logger ReflectionLoopStarted w with
  | (Ok _, w') => reflection_ticks fuel w'
  | (Raise x, w') => Some (Raise x, w')
  end.

End Reflection.

(** The warnings of line 254 a run of arrivals gives rise to. *)
Definition error_reports (xs : list Arrival) : list LogRecord :=
  flat_map (fun x => match x with
                     | StateChange _ event data =>
                         if bool_decide (event = lit "error")
                         then [MainAgentErrorDetected data] else []
                     | _ => []
                     end) xs.

(** The dictionary of lines 366-370. *)
Definition tool_message (tool_call : ToolCall) (result : str) : ChatMessage :=
  {| role := lit "tool"; tool_call_id := Some (tc_id tool_call); msg_content := result |}.

(** The results of the calls when the registry is given them one after
    the other, each on the state the one before it left. *)
Fixpoint answers {E} (c : Collaborators E) (calls : list ToolCall) (x : E)
    : res (list str) * E :=
  match calls with
  | [] => (Ok [], x)
  | tool_call :: rest =>
      match tools_execute c (tc_name tool_call) (tc_arguments tool_call) x with
      | (Raise err, x1) => (Raise err, x1)
      | (Ok result, x1) =>
          match answers c rest x1 with
          | (Raise err, x2) => (Raise err, x2)
          | (Ok results, x2) => (Ok (result :: results), x2)
          end
      end
  end.

(** What line 353 shows of a response. *)
Definition shown (response : Response) : str :=
  if truthy (content response) then slice_to 100 (or_empty (content response))
  else lit "no content".

(** The console handler raises on none of the lines the loop logs for a
    response: the line of the iteration and one line for each tool call. *)
Definition lines_print {E} (c : Collaborators E) (cfg : Config) (response : Response)
    : Prop :=
  (forall iteration, emit c cfg (IterationDebug iteration (shown response)) = Ok tt)
  /\ Forall (fun tool_call => emit c cfg (ExecutingTool (tc_name tool_call)) = Ok tt)
       (tool_calls response).

(** Everything that arrived over a run of suspensions. *)
Definition arrived (consumed : list Wake) : list Arrival :=
  concat (map arrivals consumed).

(** [w'] comes after [w] and, in between, the buffers were touched by the
    two monitors only: some suspensions were used up, and each buffer grew
    by what arrived during them. *)
Definition advances {E} (w w' : World E) : Prop :=
  exists consumed,
    tape w = consumed ++ tape w'
    /\ _message_buffer (agent w')
       = foldl append_limited (_message_buffer (agent w)) (message_entries (arrived consumed))
    /\ _state_buffer (agent w')
       = foldl append_limited (_state_buffer (agent w)) (state_entries (arrived consumed)).

(** A computation that leaves the buffers to the monitors. *)
Definition framed {E A} (m : M E A) : Prop :=
  forall w r w', m w = (r, w') -> advances w w'.


(** The number of iterations of the agent loop a log records. *)
Definition is_iteration (r : LogRecord) : bool :=
  match r with
  | IterationDebug _ _ => true
  | _ => false
  end.

Definition iterations_logged (l : list LogRecord) : nat :=
  length (List.filter is_iteration l).

(** A computation in which at most [n] iterations are logged. *)
Definition counted {E A} (n : nat) (m : M E A) : Prop :=
  forall w r w',
    m w = (r, w') ->
    (iterations_logged (log (agent w')) <= iterations_logged (log (agent w)) + n)%nat.

End SelfAgent.

(** ** Concrete scenarios *)

Module Scenario.
Import FileLock.

(** A platform on which nothing fails and nobody else touches the files. *)
Definition calm : Env :=
  {| getpid := 4242%N;
     repr_time := fun t => lit (pretty t);
     io := fun _ => no_fault;
     sleeps := fun _ => quiet |}.

(** The same platform with every read of a marker refused. *)
Definition unreadable : Env :=
  {| getpid := 4242%N;
     repr_time := fun t => lit (pretty t);
     io := fun _ => {| create_fault := None;
                       read_fault := Some "EACCES"%string;
                       override_fault := None |};
     sleeps := fun _ => quiet |}.

Definition memory_md : str := lit "workspace/memory/MEMORY.md".
Definition notes_md : str := lit "workspace/notes.md".

(** The lock objects of the main agent and of the SelfAgent for the two
    files, with the timeout of the locked write tool and a short one. *)
Definition main_on_memory : FileLock.t := FileLock.init memory_md 5000 true.
Definition self_on_notes : FileLock.t := FileLock.init notes_md 300 false.
Definition main_on_notes : FileLock.t := FileLock.init notes_md 300 true.

(** The main agent on [notes.md] with a timeout of five seconds. *)
Definition main_patient : FileLock.t := FileLock.init notes_md 5000 true.

(** [MEMORY.md] held by the SelfAgent, [notes.md] by the main agent. *)
Definition contended : World :=
  {| fs := {[ lockfile main_on_memory := lit "77|1730000000.5|selfagent";
              lockfile self_on_notes := lit "4242|1730000001.25|main" ]};
     clock := 1730000002000 |}.

(** An empty workspace. *)
Definition idle : World := {| fs := ∅; clock := 1730000002000 |}.

(** [notes.md] with a marker that is no lock record at all. *)
Definition corrupted : World :=
  {| fs := {[ lockfile main_on_notes := lit "garbage" ]};
     clock := 1730000002000 |}.

(** Two SelfAgent tasks and the main agent contending for [notes.md]. *)
Definition trio : System.state :=
  {| System.files := ∅;
     System.pool := [ self_on_notes; self_on_notes; main_on_notes ] |}.

(** Two SelfAgent tasks alone on [notes.md]. *)
Definition duo : System.state :=
  {| System.files := ∅;
     System.pool := [ self_on_notes; self_on_notes ] |}.

(** [notes.md] held by the SelfAgent. *)
Definition held_by_selfagent : World :=
  {| fs := {[ lockfile main_on_notes := lit "77|1730000000.5|selfagent" ]};
     clock := 1730000002000 |}.

(** A stand-in for the inherited [WriteFileTool]: paths are resolved
    under the workspace and the content is stored as it is given. *)
Definition plain_write : LockedWriteFileTool.WriteFileTool :=
  {| LockedWriteFileTool._resolve_path := fun path => Ok (lit "workspace/" ++ path);
     LockedWriteFileTool.super_execute := fun path content w =>
       (Ok (lit "written"),
        {| fs := <[lit "workspace/" ++ path := content]> (fs w); clock := clock w |}) |}.

(** Lower-casing restricted to ASCII. *)
Definition lower_ascii_only : case_mapping := fun _ c _ => [ascii_lower c].

(** The text of a dictionary whose keys and values are plain words. *)
Definition plain_repr (d : SelfAgent.Data) : str :=
  lit "{"
  ++ SelfAgent.join (lit ", ")
       (map (fun kv => lit "'" ++ kv.1 ++ lit "': '" ++ kv.2 ++ lit "'") d)
  ++ lit "}".

(** The first closing tag of a text, up to its bracket. *)
Fixpoint up_to_bracket (s : str) : str :=
  match s with
  | [] => []
  | a :: s' => if N.eqb a 93 then [a] else a :: up_to_bracket s'
  end.

Fixpoint closing_tag (s : str) : option str :=
  match s with
  | [] => None
  | a :: s' =>
      if startswith (lit "[/") s then Some (up_to_bracket s) else closing_tag s'
  end.

Definition text_of (s : str) : string :=
  String.string_of_list_ascii (map Ascii.ascii_of_N s).

(** A console that, like the one of [rich], refuses a text with a closing
    tag and no tag before it, and names the tag in its error (the
    position, which [rich] adds, is left out). *)
Definition terminal (line : SelfAgent.Line) (s : str) : res unit :=
  match closing_tag s with
  | Some t =>
      Raise (Exception "MarkupError"
               ("closing tag '" ++ text_of t ++ "' doesn't match any open tag"))
  | None => Ok tt
  end.

(** A reasoning stub that always asks for the same tool, and tools that
    always answer; the state counts the calls made to the provider. *)
Definition insistent : SelfAgent.Collaborators nat :=
  {| SelfAgent.chat := fun _ n =>
       (Ok {| SelfAgent.content := Some (lit "let me check");
              SelfAgent.has_tool_calls := true;
              SelfAgent.tool_calls :=
                [ {| SelfAgent.tc_id := lit "call";
                     SelfAgent.tc_name := lit "list_dir";
                     SelfAgent.tc_arguments := [(lit "path", lit ".")] |} ] |},
        S n);
     SelfAgent.tools_execute := fun _ _ n => (Ok (lit "MEMORY.md"), n);
     SelfAgent.dumps_messages := fun _ => Ok (lit "[]");
     SelfAgent.dumps_states := fun _ => Ok (lit "[]");
     SelfAgent.repr_data := plain_repr;
     SelfAgent.console_print := terminal |}.

(** A provider that is down. *)
Definition unreachable : SelfAgent.Collaborators nat :=
  {| SelfAgent.chat := fun _ n =>
       (Raise (Exception "ConnectionError" "provider unreachable"), S n);
     SelfAgent.tools_execute := fun _ _ n => (Ok (lit "MEMORY.md"), n);
     SelfAgent.dumps_messages := fun _ => Ok (lit "[]");
     SelfAgent.dumps_states := fun _ => Ok (lit "[]");
     SelfAgent.repr_data := plain_repr;
     SelfAgent.console_print := terminal |}.

(** Three iterations at most, the logger at [INFO], the console on. *)
Definition three_rounds : SelfAgent.Config :=
  {| SelfAgent.max_iterations := 3;
     SelfAgent.log_level := 20;
     SelfAgent.console_output := true;
     SelfAgent._identity_content := lit "# IDENTITY.md not found";
     SelfAgent._soul_content := lit "# SOUL.md not found";
     SelfAgent._agents_content := lit "# AGENTS.md not found";
     SelfAgent._tools_content := lit "# TOOLS.md not found" |}.

(** The same with the logger at [DEBUG]: every line goes to the console. *)
Definition verbose : SelfAgent.Config :=
  {| SelfAgent.max_iterations := 3;
     SelfAgent.log_level := 10;
     SelfAgent.console_output := true;
     SelfAgent._identity_content := lit "# IDENTITY.md not found";
     SelfAgent._soul_content := lit "# SOUL.md not found";
     SelfAgent._agents_content := lit "# AGENTS.md not found";
     SelfAgent._tools_content := lit "# TOOLS.md not found" |}.

(** A running agent that has seen nothing, one that has seen a message;
    during the next two suspensions a state change, then a message, arrive. *)
Definition at_rest : SelfAgent.World nat :=
  SelfAgent.mkWorld SelfAgent.started [] 0%nat.

Definition observing : SelfAgent.World nat :=
  SelfAgent.mkWorld
    (SelfAgent._on_message (lit "t0") (lit "inbound") (Some (lit "cli")) (lit "hello")
       SelfAgent.started)
    [ {| SelfAgent.arrivals := [SelfAgent.StateChange (lit "t1") (lit "thinking") []];
         SelfAgent.cancelled := false |};
      {| SelfAgent.arrivals := [SelfAgent.Message (lit "t2") (lit "outbound") None (lit "hi")];
         SelfAgent.cancelled := false |} ]
    0%nat.

(** A platform on which the disk is full: a marker can be created, and
    nothing written into it. *)
Definition disk_full : Env :=
  {| getpid := 4242%N;
     repr_time := fun t => lit (pretty t);
     io := fun _ => {| create_fault := Some (WriteFails 0 "ENOSPC");
                       read_fault := None;
                       override_fault := Some (WriteFails 0 "ENOSPC") |};
     sleeps := fun _ => quiet |}.

(** A platform whose clock is printed as a constant. *)
Definition frozen : Env :=
  {| getpid := 4242%N;
     repr_time := fun _ => lit "1730000000.5";
     io := fun _ => no_fault;
     sleeps := fun _ => quiet |}.

(** A platform on which the holder of the marker of [notes.md] releases
    it during the second sleep of the caller. *)
Definition releasing : Env :=
  {| getpid := 4242%N;
     repr_time := fun t => lit (pretty t);
     io := fun _ => no_fault;
     sleeps := fun k =>
       if Nat.eqb k 1
       then {| others := delete (lockfile self_on_notes); took := 107%positive;
               cancelled := false |}
       else quiet |}.

(** A provider that answers at once, without asking for a tool. *)
Definition decided : SelfAgent.Collaborators nat :=
  {| SelfAgent.chat := fun _ n =>
       (Ok {| SelfAgent.content := Some (lit "nothing to add");
              SelfAgent.has_tool_calls := false;
              SelfAgent.tool_calls := [] |},
        S n);
     SelfAgent.tools_execute := fun _ _ n => (Ok (lit "MEMORY.md"), n);
     SelfAgent.dumps_messages := fun _ => Ok (lit "[]");
     SelfAgent.dumps_states := fun _ => Ok (lit "[]");
     SelfAgent.repr_data := plain_repr;
     SelfAgent.console_print := terminal |}.

(** Collaborators with which the state changes cannot be serialised. *)
Definition unserialisable : SelfAgent.Collaborators nat :=
  {| SelfAgent.chat := fun _ n =>
       (Ok {| SelfAgent.content := Some (lit "nothing to add");
              SelfAgent.has_tool_calls := false;
              SelfAgent.tool_calls := [] |},
        S n);
     SelfAgent.tools_execute := fun _ _ n => (Ok (lit "MEMORY.md"), n);
     SelfAgent.dumps_messages := fun _ => Ok (lit "[]");
     SelfAgent.dumps_states := fun _ =>
       Raise (Exception "TypeError" "Object of type Path is not JSON serializable");
     SelfAgent.repr_data := plain_repr;
     SelfAgent.console_print := terminal |}.

(** A provider the call to which is interrupted from the keyboard. *)
Definition interrupted : SelfAgent.Collaborators nat :=
  {| SelfAgent.chat := fun _ n => (Raise (OtherBaseException "KeyboardInterrupt"), S n);
     SelfAgent.tools_execute := fun _ _ n => (Ok (lit "MEMORY.md"), n);
     SelfAgent.dumps_messages := fun _ => Ok (lit "[]");
     SelfAgent.dumps_states := fun _ => Ok (lit "[]");
     SelfAgent.repr_data := plain_repr;
     SelfAgent.console_print := terminal |}.


(** Tools that answer with the number of the calls made before. *)
Definition numbering : SelfAgent.Collaborators nat :=
  {| SelfAgent.chat := fun _ n =>
       (Ok {| SelfAgent.content := Some (lit "nothing to add");
              SelfAgent.has_tool_calls := false;
              SelfAgent.tool_calls := [] |},
        n);
     SelfAgent.tools_execute := fun _ _ n => (Ok (lit (pretty n)), S n);
     SelfAgent.dumps_messages := fun _ => Ok (lit "[]");
     SelfAgent.dumps_states := fun _ => Ok (lit "[]");
     SelfAgent.repr_data := plain_repr;
     SelfAgent.console_print := terminal |}.


(** The agent of [observing] when its next sleep is cancelled. *)
Definition stopping : SelfAgent.World nat :=
  SelfAgent.mkWorld
    (SelfAgent._on_message (lit "t0") (lit "inbound") (Some (lit "cli")) (lit "hello")
       SelfAgent.started)
    [ {| SelfAgent.arrivals := [SelfAgent.StateChange (lit "t1") (lit "error") []];
         SelfAgent.cancelled := true |} ]
    0%nat.

(** A burst of messages on the bus, numbered from [first] on. *)
Definition nth_message (i : nat) : SelfAgent.Arrival :=
  SelfAgent.Message (lit (pretty i)) (lit "inbound") (Some (lit "cli")) (lit (pretty i)).

Definition burst (first count : nat) : list SelfAgent.Arrival :=
  map nth_message (seq first count).

End Scenario.

(** * Properties *)

(** ** Strings *)

Section StrFacts.

Lemma startswith_spec (p s : str) :
  startswith p s = true <-> exists r, s = p ++ r.
Proof.
  revert s; induction p as [|a p IH]; intros s; simpl.
  - split; [intros _; by exists s | done].
  - destruct s as [|b s].
    + split; [done | intros [r Hr]; discriminate].
    + rewrite andb_true_iff, N.eqb_eq, IH. split.
      * intros [-> [r ->]]. by exists r.
      * intros [r Hr]. injection Hr as -> ->. eauto.
Qed.

Lemma startswith_app (p r : str) : startswith p (p ++ r) = true.
Proof. apply startswith_spec. by exists r. Qed.

Lemma contains_spec (p s : str) :
  contains p s = true <-> exists a b, s = a ++ p ++ b.
Proof.
  induction s as [|c s IH]; simpl.
  - rewrite orb_false_r, startswith_spec. split.
    + intros [r Hr]. by exists [], r.
    + intros [a [b Hab]]. destruct a; [by exists b|discriminate].
  - rewrite orb_true_iff, startswith_spec, IH. split.
    + intros [[r Hr] | [a [b Hab]]].
      * by exists [], r.
      * exists (c :: a), b. by rewrite Hab.
    + intros [[|c' a] [b Hab]].
      * left. by exists b.
      * right. injection Hab as -> ->. by exists a, b.
Qed.

Lemma contains_app (a p b : str) : contains p (a ++ p ++ b) = true.
Proof. apply contains_spec. by exists a, b. Qed.

(** The tag of a marker is the end of its text. *)
Lemma role_tag_suffix (c : str) : exists pre, c = pre ++ FileLock.role_tag c.
Proof.
  induction c as [|a c [pre IH]]; simpl.
  - by exists [].
  - destruct (contains (lit "|") c).
    + exists (a :: pre). by rewrite IH at 1.
    + destruct (N.eqb a 124); [by exists [a] | by exists []].
Qed.

Lemma role_tag_contains (c tagv : str) :
  FileLock.role_tag c = tagv -> contains tagv c = true.
Proof.
  intros <-. destruct (role_tag_suffix c) as [pre Hpre].
  rewrite Hpre at 2. rewrite <- (app_nil_r (FileLock.role_tag c)) at 2.
  apply contains_app.
Qed.

Lemma role_tag_last_field (pre field : str) :
  contains (lit "|") field = false ->
  FileLock.role_tag (pre ++ lit "|" ++ field) = field.
Proof.
  change (lit "|") with [124%N]. intros Hf.
  induction pre as [|a pre IH]; cbn [app FileLock.role_tag].
  - change (lit "|") with [124%N]. by rewrite Hf.
  - change (lit "|") with [124%N].
    pose proof (contains_app pre [124%N] field) as Hc.
    cbn [app] in Hc. by rewrite Hc.
Qed.

Lemma lower_in_app (lower_cp : case_mapping) (a b : str) :
  forall before after,
    lower_in lower_cp before (a ++ b) after
    = lower_in lower_cp before a (b ++ after) ++ lower_in lower_cp (before ++ a) b after.
Proof.
  induction a as [|c a IH]; intros before after; cbn [app lower_in].
  - by rewrite app_nil_r.
  - rewrite IH, <- !app_assoc. done.
Qed.

(** A stretch of ASCII is lower-cased on its own, wherever it stands. *)
Lemma lower_in_ascii (lower_cp : case_mapping) (s : str) :
  (forall before c after, (c < 128)%N -> lower_cp before c after = [ascii_lower c]) ->
  Forall (fun c => (c < 128)%N) s ->
  forall before after, lower_in lower_cp before s after = map ascii_lower s.
Proof.
  intros Hascii Hs. induction Hs as [|c s Hc Hs IH]; intros before after; [done|].
  cbn [lower_in map]. by rewrite Hascii, IH.
Qed.

End StrFacts.

(** ** The file lock *)

Section FileLockFacts.
Import FileLock.

Lemma file_exists_true (p : str) (m : FS) :
  file_exists p m = true <-> is_Some (m !! p).
Proof. unfold file_exists. apply bool_decide_eq_true. Qed.

Lemma file_exists_false (p : str) (m : FS) :
  file_exists p m = false <-> m !! p = None.
Proof.
  unfold file_exists. rewrite bool_decide_eq_false, eq_None_not_Some. done.
Qed.

Lemma file_exists_lookup (p c : str) (m : FS) :
  m !! p = Some c -> file_exists p m = true.
Proof. intros H. apply file_exists_true. eauto. Qed.

Lemma touches_only_refl (p : str) (m : FS) : touches_only p m m.
Proof. by split. Qed.

Lemma touches_only_insert (p c : str) (m : FS) : touches_only p m (<[p := c]> m).
Proof.
  split.
  - intros q Hq. by rewrite lookup_insert_ne.
  - intros _. rewrite lookup_insert_eq. eauto.
Qed.

Lemma touches_only_trans (p : str) (m1 m2 m3 : FS) :
  touches_only p m1 m2 -> touches_only p m2 m3 -> touches_only p m1 m3.
Proof.
  intros [H1 K1] [H2 K2]. split.
  - intros q Hq. by rewrite H2, H1.
  - intros Hm. by apply K2, K1.
Qed.

(** A write goes through, or raises an [Exception] and has touched no
    file but its own. *)
Lemma write_text_cases (fault : option WriteFault) (p c : str) (m : FS) :
  (fault = None /\ write_text fault p c m = (Ok tt, <[p := c]> m))
  \/ (exists x m',
        write_text fault p c m = (Raise x, m')
        /\ is_Exception x = true /\ fault <> None /\ touches_only p m m').
Proof.
  destruct fault as [[msg|kept msg]|]; cbn [write_text].
  - right. eexists _, _. split; [done|]. split; [done|]. split; [done|].
    apply touches_only_refl.
  - right. eexists _, _. split; [done|]. split; [done|]. split; [done|].
    apply touches_only_insert.
  - by left.
Qed.

(** Lines 42-50: the record of the caller is written where no marker is;
    a pass that goes on has touched its own marker at most. *)
Lemma poll_create_cases (e : Env) (f : PollIO) (now : Z) (l : t) (m : FS) :
  (m !! lockfile l = None /\ create_fault f = None
   /\ poll_create e f now l m
      = Ok (Acquired (<[lockfile l := marker_content e now (is_main_agent l)]> m)))
  \/ (exists m', poll_create e f now l m = Ok (Retry m')
                 /\ touches_only (lockfile l) m m'
                 /\ (is_Some (m !! lockfile l) -> m' = m)).
Proof.
  unfold poll_create. destruct (file_exists (lockfile l) m) eqn:Hex; cbn [negb].
  - right. exists m. split; [done|]. split; [apply touches_only_refl|done].
  - apply file_exists_false in Hex.
    destruct (write_text_cases (create_fault f) (lockfile l)
                (marker_content e now (is_main_agent l)) m)
      as [[Hf Hw]|(x & m' & Hw & Hx & _ & Htouch)]; rewrite Hw.
    + by left.
    + right. exists m'. unfold catch_Exception. rewrite Hx.
      split; [done|]. split; [done|]. intros [v Hv]. congruence.
Qed.

(** Lines 53-63: the override. *)
Lemma poll_override_cases (e : Env) (f : PollIO) (now : Z) (l : t) (m : FS) :
  (is_main_agent l = true
   /\ (exists c, m !! lockfile l = Some c /\ contains (lit "selfagent") c = true)
   /\ read_fault f = None /\ override_fault f = None
   /\ poll_override e f now l m = Ok (Acquired (<[lockfile l := override_content e now]> m)))
  \/ (exists m', poll_override e f now l m = Ok (Retry m')
                 /\ touches_only (lockfile l) m m').
Proof.
  unfold poll_override.
  destruct (is_main_agent l) eqn:Hrole; cbn [andb];
    [|right; exists m; split; [done|apply touches_only_refl]].
  destruct (file_exists (lockfile l) m) eqn:Hex;
    [|right; exists m; split; [done|apply touches_only_refl]].
  apply file_exists_true in Hex as [c Hc]. unfold read_text. rewrite Hc.
  destruct (read_fault f) as [msg|];
    [right; exists m; split; [done|apply touches_only_refl]|].
  destruct (contains (lit "selfagent") c) eqn:Hin;
    [|right; exists m; split; [done|apply touches_only_refl]].
  destruct (write_text_cases (override_fault f) (lockfile l) (override_content e now) m)
    as [[Hf Hw]|(x & m' & Hw & Hx & _ & Htouch)]; rewrite Hw.
  - left. eauto 10.
  - right. exists m'. unfold catch_Exception. by rewrite Hx.
Qed.

(** A pass over an absent marker, when the write goes through. *)
Lemma poll_absent (e : Env) (f : PollIO) (now : Z) (l : t) (m : FS) :
  m !! lockfile l = None ->
  create_fault f = None ->
  poll e f now l m
  = Ok (Acquired (<[lockfile l := marker_content e now (is_main_agent l)]> m)).
Proof.
  intros Hm Hf. unfold poll.
  destruct (poll_create_cases e f now l m) as [(_ & _ & ->)|(m' & Hp & _)]; [done|].
  unfold poll_create in Hp. apply file_exists_false in Hm. rewrite Hm in Hp.
  cbn [negb] in Hp. rewrite Hf in Hp. cbn [write_text] in Hp. done.
Qed.

(** A pass of a subordinate caller over a marker that exists. *)
Lemma poll_subordinate_held (e : Env) (f : PollIO) (now : Z) (l : t) (m : FS) :
  is_main_agent l = false ->
  file_exists (lockfile l) m = true ->
  poll e f now l m = Ok (Retry m).
Proof.
  intros Hsub Hex. unfold poll, poll_create, poll_override.
  rewrite Hex, Hsub. cbn [negb andb]. done.
Qed.

(** A pass of a privileged caller over a marker that exists. *)
Lemma poll_main_held (e : Env) (f : PollIO) (now : Z) (l : t) (m : FS) (c : str) :
  is_main_agent l = true ->
  m !! lockfile l = Some c ->
  poll e f now l m =
    match read_fault f, contains (lit "selfagent") c, override_fault f with
    | None, true, None => Ok (Acquired (<[lockfile l := override_content e now]> m))
    | None, true, Some (WriteFails kept _) =>
        Ok (Retry (<[lockfile l := take kept (override_content e now)]> m))
    | _, _, _ => Ok (Retry m)
    end.
Proof.
  intros Hmain Hm. pose proof (file_exists_lookup _ _ _ Hm) as Hex.
  unfold poll, poll_create, poll_override. rewrite Hex. cbn [negb].
  rewrite Hex, Hmain. cbn [andb]. unfold read_text. rewrite Hm.
  destruct (read_fault f); [done|].
  destruct (contains (lit "selfagent") c); [|done].
  by destruct (override_fault f) as [[msg|kept msg]|].
Qed.

(** A privileged caller leaves alone a marker it cannot read or in which
    it does not find [selfagent]. *)
Lemma poll_main_blocked (e : Env) (f : PollIO) (now : Z) (l : t) (m : FS) (c : str) :
  is_main_agent l = true ->
  m !! lockfile l = Some c ->
  read_fault f <> None \/ contains (lit "selfagent") c = false ->
  poll e f now l m = Ok (Retry m).
Proof.
  intros Hmain Hm Hbad. rewrite (poll_main_held e f now l m c Hmain Hm).
  destruct Hbad as [Hread | ->]; [by destruct (read_fault f)|].
  by destruct (read_fault f).
Qed.

(** No pass lets an exception of the file operations escape, and none
    touches a file other than the marker. *)
Lemma poll_frame (e : Env) (f : PollIO) (now : Z) (l : t) (m : FS) :
  exists pl, poll e f now l m = Ok pl /\ touches_only (lockfile l) m (files_of pl).
Proof.
  unfold poll.
  destruct (poll_create_cases e f now l m) as [(_ & _ & ->)|(m1 & -> & Htouch1 & _)].
  - eexists. split; [done|]. apply touches_only_insert.
  - destruct (poll_override_cases e f now l m1)
      as [(_ & _ & _ & _ & ->)|(m2 & -> & Htouch2)].
    + eexists. split; [done|]. cbn [files_of].
      eapply touches_only_trans; [done|apply touches_only_insert].
    + eexists. split; [done|]. cbn [files_of]. by eapply touches_only_trans.
Qed.

(** What a pass that succeeds has written. *)
Lemma poll_acquired (e : Env) (f : PollIO) (now : Z) (l : t) (m m' : FS) :
  poll e f now l m = Ok (Acquired m') ->
  (m !! lockfile l = None /\ create_fault f = None
   /\ m' = <[lockfile l := marker_content e now (is_main_agent l)]> m)
  \/ (is_main_agent l = true /\ read_fault f = None /\ override_fault f = None
      /\ m' = <[lockfile l := override_content e now]> m).
Proof.
  unfold poll.
  destruct (poll_create_cases e f now l m)
    as [(Hm & Hf & ->)|(m1 & -> & [Hother _] & Hsame)].
  - intros [= <-]. by left.
  - destruct (poll_override_cases e f now l m1)
      as [(Hmain & _ & Hr & Ho & ->)|(m2 & -> & _)]; [|done].
    intros [= <-]. right. split; [done|]. split; [done|]. split; [done|].
    apply map_eq. intros q. destruct (decide (q = lockfile l)) as [->|Hq].
    + by rewrite !lookup_insert_eq.
    + by rewrite !lookup_insert_ne, Hother.
Qed.

(** [acquire] returns: the fuel it is given is enough. *)
Lemma acquire_loop_total (e : Env) (l : t) (fuel : nat) :
  forall (k : nat) (start : Z) (w : World),
    (0 < fuel)%nat ->
    timeout l - (clock w - start) <= Z.of_nat fuel - 1 ->
    is_Some (acquire_loop fuel e k start l w).
Proof.
  induction fuel as [|fuel IH]; intros k start w Hpos Hfuel; simpl; [lia|].
  destruct (Z.ltb_spec (clock w - start) (timeout l)) as [Hlt|Hge]; [|eauto].
  destruct (poll e (io e k) (clock w) l (fs w)) as [[m'|m']|x]; [eauto| |eauto].
  destruct (cancelled (sleeps e k)); [eauto|].
  apply IH; unfold sleep; simpl; lia.
Qed.

Lemma acquire_fuel_pos (l : t) : (0 < acquire_fuel l)%nat.
Proof. unfold acquire_fuel. lia. Qed.

Lemma acquire_fuel_enough (l : t) :
  timeout l <= Z.of_nat (acquire_fuel l) - 1.
Proof. unfold acquire_fuel. lia. Qed.

Lemma acquire_total (e : Env) (l : t) (w : World) : is_Some (acquire e l w).
Proof.
  unfold acquire. apply acquire_loop_total; [apply acquire_fuel_pos|].
  pose proof (acquire_fuel_enough l). lia.
Qed.

(** A caller every pass of which finds the files in a condition [Inv]
    under which it can only retry, and which the other tasks maintain,
    gives up when the timeout has elapsed, having written nothing. *)
Lemma acquire_loop_blocked (e : Env) (l : t) (Inv : nat -> FS -> Prop) :
  (forall k now m, Inv k m -> poll e (io e k) now l m = Ok (Retry m)) ->
  (forall k m, Inv k m -> Inv (S k) (others (sleeps e k) m)) ->
  (forall k, cancelled (sleeps e k) = false) ->
  forall (fuel k : nat) (start : Z) (w : World),
    Inv k (fs w) ->
    (0 < fuel)%nat ->
    timeout l - (clock w - start) <= Z.of_nat fuel - 1 ->
    exists n w',
      acquire_loop fuel e k start l w = Some (Ok false, l, w')
      /\ fs w' = drift e k n (fs w)
      /\ Inv (k + n)%nat (fs w')
      /\ timeout l <= clock w' - start
      /\ clock w <= clock w'.
Proof.
  intros Hpoll Hothers Hcancel.
  induction fuel as [|fuel IH]; intros k start w Hinv Hpos Hfuel; simpl; [lia|].
  destruct (Z.ltb_spec (clock w - start) (timeout l)) as [Hlt|Hge].
  - rewrite (Hpoll k (clock w) (fs w) Hinv), Hcancel.
    destruct (IH (S k) start (sleep (sleeps e k) (fs w) (clock w)))
      as (n & w' & Hrun & Hfs & Hinv' & Htime & Hclock).
    + simpl. by apply Hothers.
    + simpl in *. lia.
    + simpl. lia.
    + exists (S n), w'. rewrite Hrun. split; [done|]. split; [done|].
      split; [by replace (k + S n)%nat with (S k + n)%nat by lia|].
      split; [done|]. simpl in Hclock. lia.
  - exists O, w. rewrite Nat.add_0_r. repeat split; try done; lia.
Qed.

(** [release] lets no exception of the unlink escape, and touches no file
    but its own marker. *)
Lemma release_total (uf : option string) (l : t) (m : FS) :
  exists l' m',
    release uf l m = Ok (l', m')
    /\ lockfile l' = lockfile l /\ is_main_agent l' = is_main_agent l
    /\ (forall q, q <> lockfile l -> m' !! q = m !! q)
    /\ (m' = m \/ (_acquired l = true /\ is_Some (m !! lockfile l)
                   /\ uf = None /\ m' = delete (lockfile l) m)).
Proof.
  unfold release.
  destruct (_acquired l) eqn:Hacq; simpl; [|by exists l, m; eauto 10].
  destruct (file_exists (lockfile l) m) eqn:Hex; [|by exists l, m; eauto 10].
  apply file_exists_true in Hex as Hsome. destruct Hsome as [c Hc].
  unfold unlink. destruct uf as [msg|]; simpl.
  - exists (set_acquired false l), m. eauto 10.
  - rewrite Hc. simpl. exists (set_acquired false l), (delete (lockfile l) m).
    split; [done|]. split; [done|]. split; [done|]. split.
    + intros q Hq. by rewrite lookup_delete_ne.
    + right. eauto.
Qed.

End FileLockFacts.

Section FileLockClaims.
Import FileLock.

(** C1 (priority override), in two halves, each under its own
    conditions.  A privileged [acquire] on a marker whose role tag is
    [selfagent], with a positive timeout and a read and a write that go
    through, returns True on its first pass through the loop, before any
    sleep (the clock has not moved), and has replaced the marker by a
    record whose role tag is [main].  A subordinate [acquire] on a marker
    tagged [main], which its holder keeps in place, writes nothing (the
    files at return are what the other tasks made of them) and returns
    False once the timeout has elapsed, unless the task is cancelled. *)
Theorem C1_priority_override (e : Env) :
  (forall (lp : FileLock.t) (w : World) (cs : str),
     is_main_agent lp = true ->
     fs w !! lockfile lp = Some cs ->
     role_tag cs = lit "selfagent" ->
     0 < timeout lp ->
     read_fault (io e 0) = None ->
     override_fault (io e 0) = None ->
     acquire e lp w
     = Some (Ok true, set_acquired true lp,
             {| fs := <[lockfile lp := override_content e (clock w)]> (fs w);
                clock := clock w |})
     /\ role_tag (override_content e (clock w)) = lit "main")
  /\ (forall (ls : FileLock.t) (w : World) (cm : str),
        is_main_agent ls = false ->
        fs w !! lockfile ls = Some cm ->
        role_tag cm = lit "main" ->
        (forall k m, is_Some (m !! lockfile ls) ->
                     is_Some (others (sleeps e k) m !! lockfile ls)) ->
        (forall k, cancelled (sleeps e k) = false) ->
        exists n w',
          acquire e ls w = Some (Ok false, ls, w')
          /\ fs w' = drift e 0 n (fs w)
          /\ is_Some (fs w' !! lockfile ls)
          /\ timeout ls <= clock w' - clock w).
Proof.
  split.
  - intros lp w cs Hmain Hcs Htag Htimeout Hread Hwrite. split.
    + unfold acquire, acquire_fuel.
      rewrite Nat.add_comm. cbn [Nat.add acquire_loop].
      replace (clock w - clock w) with 0 by lia.
      destruct (Z.ltb_spec 0 (timeout lp)) as [_|]; [|lia].
      rewrite (poll_main_held e (io e 0) (clock w) lp (fs w) cs Hmain Hcs).
      by rewrite Hread, Hwrite, (role_tag_contains cs _ Htag).
    + unfold override_content.
      change (lit "|main") with (lit "|" ++ lit "main").
      rewrite (app_assoc _ (lit "|") (repr_time e (clock w) ++ _)).
      rewrite (app_assoc _ (repr_time e (clock w)) (lit "|" ++ _)).
      by apply role_tag_last_field.
  - intros ls w cm Hsub Hcm _ Hkeep Hcancel.
    destruct (acquire_loop_blocked e ls (fun _ m => is_Some (m !! lockfile ls)))
      with (fuel := acquire_fuel ls) (k := O) (start := clock w) (w := w)
      as (n & w' & Hrun & Hfs & Hinv & Htime & _).
    + intros k now m Hm. apply poll_subordinate_held; [done|].
      by apply file_exists_true.
    + intros k m Hm. by apply Hkeep.
    + done.
    + rewrite Hcm. eauto.
    + apply acquire_fuel_pos.
    + pose proof (acquire_fuel_enough ls). lia.
    + exists n, w'. eauto.
Qed.

(** The main agent takes [notes.md] from the SelfAgent with five seconds
    to spare; the SelfAgent waits in vain for the [notes.md] of the main
    agent. *)
Lemma C1_priority_override_witness :
  (acquire Scenario.calm Scenario.main_patient Scenario.held_by_selfagent
   = Some (Ok true, set_acquired true Scenario.main_patient,
           {| fs := <[lockfile Scenario.main_patient :=
                        override_content Scenario.calm (clock Scenario.held_by_selfagent)]>
                      (fs Scenario.held_by_selfagent);
              clock := clock Scenario.held_by_selfagent |})
   /\ role_tag (override_content Scenario.calm (clock Scenario.held_by_selfagent))
      = lit "main")
  /\ (exists n w',
        acquire Scenario.calm Scenario.self_on_notes Scenario.contended
        = Some (Ok false, Scenario.self_on_notes, w')
        /\ fs w' = drift Scenario.calm 0 n (fs Scenario.contended)
        /\ is_Some (fs w' !! lockfile Scenario.self_on_notes)
        /\ timeout Scenario.self_on_notes <= clock w' - clock Scenario.contended).
Proof.
  split.
  - apply (proj1 (C1_priority_override Scenario.calm) Scenario.main_patient
             Scenario.held_by_selfagent (lit "77|1730000000.5|selfagent")).
    + reflexivity.
    + vm_compute. reflexivity.
    + vm_compute. reflexivity.
    + vm_compute. reflexivity.
    + reflexivity.
    + reflexivity.
  - apply (proj2 (C1_priority_override Scenario.calm) Scenario.self_on_notes
             Scenario.contended (lit "4242|1730000001.25|main")).
    + reflexivity.
    + vm_compute. reflexivity.
    + vm_compute. reflexivity.
    + intros k m Hm. exact Hm.
    + intros k. reflexivity.
Defined.

(** C7, as the specification words it, fails: a privileged [acquire] on
    a marker that is no lock record ([garbage]), and one on a marker every
    read of which is refused, both return False when the timeout has
    elapsed and leave the marker as it was. *)
Lemma C7_counterexample :
  (exists w',
     acquire Scenario.calm Scenario.main_on_notes Scenario.corrupted
       = Some (Ok false, Scenario.main_on_notes, w')
     /\ fs w' !! lockfile Scenario.main_on_notes = Some (lit "garbage"))
  /\ (exists w',
        acquire Scenario.unreadable Scenario.main_on_notes Scenario.held_by_selfagent
          = Some (Ok false, Scenario.main_on_notes, w')
        /\ fs w' !! lockfile Scenario.main_on_notes
           = Some (lit "77|1730000000.5|selfagent")).
Proof.
  split; eexists; (split; [vm_compute; reflexivity|]); vm_compute; reflexivity.
Qed.

(** C7 (amended).  During a privileged caller's [acquire], a marker
    whose content cannot be read (every read raises) or does not contain
    the text [selfagent] is not overwritten: the pass leaves the files
    untouched and goes to sleep, and as long as the other tasks leave that
    marker alone the [acquire] returns False once the timeout has elapsed,
    the marker being what it was. *)
Theorem C7_unreadable_marker_left_alone (e : Env) (l : FileLock.t) (w : World) (c : str) :
  is_main_agent l = true ->
  fs w !! lockfile l = Some c ->
  (forall k, read_fault (io e k) <> None) \/ contains (lit "selfagent") c = false ->
  (forall k m, others (sleeps e k) m !! lockfile l = m !! lockfile l) ->
  (forall k, cancelled (sleeps e k) = false) ->
  poll e (io e 0) (clock w) l (fs w) = Ok (Retry (fs w))
  /\ exists n w',
       acquire e l w = Some (Ok false, l, w')
       /\ fs w' = drift e 0 n (fs w)
       /\ fs w' !! lockfile l = Some c
       /\ timeout l <= clock w' - clock w.
Proof.
  intros Hmain Hc Hbad Hkeep Hcancel.
  assert (Hpoll : forall k now m, m !! lockfile l = Some c ->
                    poll e (io e k) now l m = Ok (Retry m)).
  { intros k now m Hm. apply (poll_main_blocked e (io e k) now l m c Hmain Hm).
    destruct Hbad as [Hread | Hcontent]; [left; apply Hread|by right]. }
  split; [by apply Hpoll|].
  destruct (acquire_loop_blocked e l (fun _ m => m !! lockfile l = Some c))
    with (fuel := acquire_fuel l) (k := O) (start := clock w) (w := w)
    as (n & w' & Hrun & Hfs & Hinv & Htime & _).
  - intros k now m Hm. by apply Hpoll.
  - intros k m Hm. by rewrite Hkeep.
  - done.
  - done.
  - apply acquire_fuel_pos.
  - pose proof (acquire_fuel_enough l). lia.
  - exists n, w'. eauto.
Qed.

Lemma C7_unreadable_marker_left_alone_witness :
  poll Scenario.calm (io Scenario.calm 0) (clock Scenario.corrupted)
    Scenario.main_on_notes (fs Scenario.corrupted)
    = Ok (Retry (fs Scenario.corrupted))
  /\ exists n w',
       acquire Scenario.calm Scenario.main_on_notes Scenario.corrupted
         = Some (Ok false, Scenario.main_on_notes, w')
       /\ fs w' = drift Scenario.calm 0 n (fs Scenario.corrupted)
       /\ fs w' !! lockfile Scenario.main_on_notes = Some (lit "garbage")
       /\ timeout Scenario.main_on_notes <= clock w' - clock Scenario.corrupted.
Proof.
  apply (C7_unreadable_marker_left_alone Scenario.calm Scenario.main_on_notes
           Scenario.corrupted (lit "garbage")).
  - reflexivity.
  - vm_compute. reflexivity.
  - right. vm_compute. reflexivity.
  - intros k m. reflexivity.
  - intros k. reflexivity.
Defined.

(** C6, at the input on which the code departs from it.  The SelfAgent
    takes the free lock of [notes.md]; the main agent overrides it, and
    the marker now carries the record of the main agent, tagged [main];
    the object of the SelfAgent, whose [_acquired] flag nothing has
    cleared, then calls [release], finds its flag set and a marker on
    file, and removes the marker of the main agent. *)
Theorem C6_displaced_release_removes_marker :
  exists (ls lm ls' : FileLock.t) (w1 w2 : World) (c : str) (m3 : FS),
    acquire Scenario.calm Scenario.self_on_notes Scenario.idle = Some (Ok true, ls, w1)
    /\ acquire Scenario.calm Scenario.main_on_notes w1 = Some (Ok true, lm, w2)
    /\ fs w2 !! lockfile lm = Some c
    /\ role_tag c = lit "main"
    /\ _acquired ls = true
    /\ release None ls (fs w2) = Ok (ls', m3)
    /\ m3 !! lockfile lm = None.
Proof.
  do 7 eexists.
  split; [vm_compute; reflexivity|].
  split; [vm_compute; reflexivity|].
  split; [vm_compute; reflexivity|].
  split; [vm_compute; reflexivity|].
  split; [vm_compute; reflexivity|].
  split; vm_compute; reflexivity.
Qed.

End FileLockClaims.

(** ** The pool of lock objects under the cooperative scheduler *)

Section SystemFacts.
Import FileLock System.

(** A step that is not the removal of the marker at [p] leaves a marker
    at [p] in place. *)
Lemma step_keeps_marker (a : action) (s : state) (p : str) :
  file_exists p (files s) = true ->
  (step a s).1 <> EvReleased p true ->
  file_exists p (files (step a s).2) = true.
Proof.
  intros Hex Hev. destruct a as [i e f now | i uf]; unfold step in *.
  - destruct (pool s !! i) as [l|]; [|done].
    destruct (poll_frame e f now l (files s)) as (pl & Hp & Hother & Hkeep).
    rewrite Hp.
    assert (Hstill : file_exists p (files_of pl) = true).
    { apply file_exists_true. apply file_exists_true in Hex.
      destruct (decide (p = lockfile l)) as [->|Hne]; [by apply Hkeep|by rewrite Hother]. }
    by destruct pl.
  - destruct (pool s !! i) as [l|]; [|done].
    destruct (release_total uf l (files s)) as (l' & m' & Hr & _ & _ & Hother & _).
    rewrite Hr in *. cbn [fst snd files] in *.
    destruct (decide (p = lockfile l)) as [->|Hne].
    + rewrite Hex in Hev. cbn [andb] in Hev.
      destruct (file_exists (lockfile l) m'); [done|]. by destruct Hev.
    + apply file_exists_true. apply file_exists_true in Hex. by rewrite Hother.
Qed.

(** After a successful [acquire] the marker is on file; a subordinate
    one found none. *)
Lemma step_acquired (a : action) (s : state) (p : str) (main : bool) :
  (step a s).1 = EvAcquired p main ->
  file_exists p (files (step a s).2) = true
  /\ (main = false -> file_exists p (files s) = false).
Proof.
  destruct a as [i e f now | i uf]; unfold step.
  - destruct (pool s !! i) as [l|]; [|done].
    destruct (poll e f now l (files s)) as [[m'|m']|x] eqn:Hp;
      cbn [fst snd files]; [|done|done].
    intros [= <- <-].
    apply poll_acquired in Hp as [(Hm & _ & ->)|(Hmain & _ & _ & ->)].
    + split; [|intros _; by apply file_exists_false].
      apply file_exists_true. rewrite lookup_insert_eq. eauto.
    + split; [|intros Hsub; congruence].
      apply file_exists_true. rewrite lookup_insert_eq. eauto.
  - destruct (pool s !! i) as [l|]; [|done].
    by destruct (release uf l (files s)) as [[l' m']|x].
Qed.

Lemma run_cons (a : action) (rest : list action) (s : state) :
  run (a :: rest) s = ((step a s).1 :: (run rest (step a s).2).1,
                       (run rest (step a s).2).2).
Proof.
  cbn [run]. destruct (step a s) as [ev s1]. cbn [fst snd].
  by destruct (run rest s1) as [evs s2].
Qed.

Global Instance exn_eq_dec : EqDecision exn.
Proof. solve_decision. Defined.

Global Instance event_eq_dec : EqDecision event.
Proof. solve_decision. Defined.

(** While a marker is on file, no subordinate [acquire] on it succeeds
    before a [release] has removed it. *)
Lemma held_until_released (p : str) (t2 t3 : list event) :
  forall (sched : list action) (s : state),
    file_exists p (files s) = true ->
    (run sched s).1 = t2 ++ EvAcquired p false :: t3 ->
    In (EvReleased p true) t2.
Proof.
  induction t2 as [|ev t2 IH]; intros sched s Hex Hrun.
  - destruct sched as [|a rest]; [done|].
    rewrite run_cons in Hrun. cbn [fst app] in Hrun. injection Hrun as Hev _.
    apply step_acquired in Hev as [_ Hfree]. rewrite Hfree in Hex; done.
  - destruct sched as [|a rest]; [done|].
    rewrite run_cons in Hrun. cbn [fst app] in Hrun. injection Hrun as Hev Hrest.
    destruct (decide (ev = EvReleased p true)) as [->|Hne]; [by left|].
    right. apply (IH rest (step a s).2); [|done].
    apply step_keeps_marker; [done|]. by rewrite Hev.
Qed.

Lemma release_cases (uf : option string) (l : FileLock.t) (m : FS) :
  release uf l m = Ok (l, m)
  \/ (_acquired l = true /\ is_Some (m !! lockfile l)
      /\ exists m', release uf l m = Ok (set_acquired false l, m')
                    /\ (m' = m \/ m' = delete (lockfile l) m)).
Proof.
  unfold release.
  destruct (_acquired l) eqn:Hacq; cbn [andb]; [|by left].
  destruct (file_exists (lockfile l) m) eqn:Hex; [|by left].
  right. apply file_exists_true in Hex as Hsome. split; [done|]. split; [done|].
  destruct Hsome as [c Hc]. unfold unlink. rewrite Hc.
  destruct uf as [msg|]; cbn; eauto.
Qed.

(** In a pool of subordinate callers, a step keeps the objects that
    believe they hold a marker apart, each with its marker on file. *)
Lemma subordinate_step (a : action) (s : state) :
  subordinate_only s -> exclusive s -> backed s ->
  subordinate_only (step a s).2 /\ exclusive (step a s).2 /\ backed (step a s).2.
Proof.
  intros Hsub Hexcl Hback. destruct a as [i e f now | i uf]; unfold step.
  - destruct (pool s !! i) as [l|] eqn:Hl; [|done].
    destruct (poll e f now l (files s)) as [[m'|m']|x] eqn:Hp; cbn [snd]; [| |done].
    + apply poll_acquired in Hp as [(Hfree & _ & ->)|(Hmain & _)];
        [|by rewrite (Hsub _ _ Hl) in Hmain].
      assert (Hnone : forall j lj, pool s !! j = Some lj -> lockfile lj = lockfile l ->
                                   _acquired lj = false).
      { intros j lj Hj Hsame. destruct (_acquired lj) eqn:Hacq; [|done].
        destruct (Hback j lj Hj Hacq) as [v Hv]. congruence. }
      split; [|split].
      * intros j lj Hj. cbn [pool] in Hj.
        apply list_lookup_insert_Some in Hj as [(-> & <- & _)|[_ Hj]];
          [exact (Hsub _ _ Hl) | exact (Hsub _ _ Hj)].
      * intros j1 j2 l1 l2 H1 H2 Hsame Ha1 Ha2. cbn [pool] in H1, H2.
        apply list_lookup_insert_Some in H1 as [(-> & <- & _)|[Hne1 H1]];
          apply list_lookup_insert_Some in H2 as [(-> & <- & _)|[Hne2 H2]].
        -- done.
        -- rewrite (Hnone j2 l2 H2) in Ha2; [done|]. by rewrite <- Hsame.
        -- rewrite (Hnone j1 l1 H1) in Ha1; [done|]. by rewrite Hsame.
        -- by eapply Hexcl.
      * intros j lj Hj Hacq. cbn [pool files] in *.
        apply list_lookup_insert_Some in Hj as [(-> & <- & _)|[Hne Hj]];
          [cbn [lockfile set_acquired]; rewrite lookup_insert_eq; eauto|].
        destruct (decide (lockfile lj = lockfile l)) as [->|Hdiff];
          [rewrite lookup_insert_eq; eauto|].
        rewrite lookup_insert_ne by done. by eapply Hback.
    + destruct (poll_frame e f now l (files s)) as (pl & Hp' & Hother & Hkeep).
      rewrite Hp in Hp'. injection Hp' as <-. cbn [files_of] in *.
      split; [done|]. split; [done|].
      intros j lj Hj Hacq. cbn [pool files] in *.
      destruct (decide (lockfile lj = lockfile l)) as [Hsame|Hdiff].
      * rewrite Hsame. apply Hkeep. rewrite <- Hsame. by eapply Hback.
      * rewrite Hother by done. by eapply Hback.
  - destruct (pool s !! i) as [l|] eqn:Hl; [|done].
    destruct (release_cases uf l (files s))
      as [Hr | (Hacq & Hsome & m' & Hr & Hm')]; rewrite Hr; cbn [snd].
    + rewrite list_insert_id by done. by destruct s.
    + split; [|split].
      * intros j lj Hj. cbn [pool] in Hj.
        apply list_lookup_insert_Some in Hj as [(-> & <- & _)|[_ Hj]];
          [exact (Hsub _ _ Hl) | exact (Hsub _ _ Hj)].
      * intros j1 j2 l1 l2 H1 H2 Hsame Ha1 Ha2. cbn [pool] in H1, H2.
        apply list_lookup_insert_Some in H1 as [(-> & <- & _)|[Hne1 H1]]; [done|].
        apply list_lookup_insert_Some in H2 as [(-> & <- & _)|[Hne2 H2]]; [done|].
        by eapply Hexcl.
      * intros j lj Hj Haj. cbn [pool files] in *.
        apply list_lookup_insert_Some in Hj as [(-> & <- & _)|[Hne Hj]]; [done|].
        destruct Hm' as [->| ->]; [by eapply Hback|].
        rewrite lookup_delete_ne; [by eapply Hback|].
        intros Hsame. apply Hne. by eapply Hexcl.
Qed.

Lemma subordinate_run (sched : list action) :
  forall s : state,
    subordinate_only s -> exclusive s -> backed s ->
    exclusive (run sched s).2 /\ backed (run sched s).2.
Proof.
  induction sched as [|a rest IH]; intros s Hsub Hexcl Hback; [done|].
  rewrite run_cons. cbn [snd].
  destruct (subordinate_step a s Hsub Hexcl Hback) as (Hsub' & Hexcl' & Hback').
  by apply IH.
Qed.

(** C2, as the specification words it, fails where a privileged caller
    takes part.  A SelfAgent task takes the free lock of [notes.md], the
    main agent overrides it and releases it, and a second SelfAgent task
    takes the lock: between the two subordinate [acquire] calls that
    succeed the marker has been released, as the claim has it, and yet
    two subordinate objects now count themselves holders of the same
    marker. *)
Lemma C2_counterexample :
  (run [ DoPoll 0 Scenario.calm no_fault 10; DoPoll 2 Scenario.calm no_fault 20;
         DoRelease 2 None; DoPoll 1 Scenario.calm no_fault 30 ]
       Scenario.trio).1
  = [ EvAcquired (lockfile Scenario.self_on_notes) false;
      EvAcquired (lockfile Scenario.self_on_notes) true;
      EvReleased (lockfile Scenario.self_on_notes) true;
      EvAcquired (lockfile Scenario.self_on_notes) false ]
  /\ pool (run [ DoPoll 0 Scenario.calm no_fault 10; DoPoll 2 Scenario.calm no_fault 20;
                 DoRelease 2 None; DoPoll 1 Scenario.calm no_fault 30 ]
               Scenario.trio).2
     = [ set_acquired true Scenario.self_on_notes;
         set_acquired true Scenario.self_on_notes;
         Scenario.main_on_notes ]
  /\ ~ exclusive
        (run [ DoPoll 0 Scenario.calm no_fault 10; DoPoll 2 Scenario.calm no_fault 20;
               DoRelease 2 None; DoPoll 1 Scenario.calm no_fault 30 ]
             Scenario.trio).2.
Proof.
  assert (Hpool :
    pool (run [ DoPoll 0 Scenario.calm no_fault 10; DoPoll 2 Scenario.calm no_fault 20;
                DoRelease 2 None; DoPoll 1 Scenario.calm no_fault 30 ]
              Scenario.trio).2
    = [ set_acquired true Scenario.self_on_notes;
        set_acquired true Scenario.self_on_notes;
        Scenario.main_on_notes ]).
  { vm_compute. reflexivity. }
  split; [vm_compute; reflexivity|]. split; [exact Hpool|].
  intros Hexcl.
  specialize (Hexcl 0%nat 1%nat (set_acquired true Scenario.self_on_notes)
                (set_acquired true Scenario.self_on_notes)).
  rewrite Hpool in Hexcl.
  discriminate (Hexcl eq_refl eq_refl eq_refl eq_refl eq_refl).
Qed.

(** C2 (amended: mutual exclusion among subordinate callers).  In every
    schedule of the pool, whatever the roles of its objects, between two
    subordinate [acquire] calls on the same marker that both succeed some
    [release] has removed that marker.  While the marker exists, a pass of
    a subordinate [acquire] can only go to sleep, the files being
    untouched.  And in a pool of subordinate callers, none of which holds
    anything at first, at no point do two objects count themselves holders
    of the same marker, and each one that does has its marker on file. *)
Theorem C2_subordinate_mutual_exclusion :
  (forall (sched : list action) (s : state) (p : str) (t1 t2 t3 : list event),
     (run sched s).1 = t1 ++ EvAcquired p false :: t2 ++ EvAcquired p false :: t3 ->
     In (EvReleased p true) t2)
  /\ (forall e f now l m,
        is_main_agent l = false -> file_exists (lockfile l) m = true ->
        poll e f now l m = Ok (Retry m))
  /\ (forall (sched : list action) (s : state),
        subordinate_only s -> unheld s ->
        exclusive (run sched s).2 /\ backed (run sched s).2).
Proof.
  split; [|split].
  - intros sched s p t1. revert sched s.
    induction t1 as [|ev t1 IH]; intros sched s t2 t3 Hrun.
    + destruct sched as [|a rest]; [done|].
      rewrite run_cons in Hrun. cbn [fst app] in Hrun. injection Hrun as Hev Hrest.
      apply step_acquired in Hev as [Hex _].
      by eapply held_until_released.
    + destruct sched as [|a rest]; [done|].
      rewrite run_cons in Hrun. cbn [fst app] in Hrun. injection Hrun as _ Hrest.
      by eapply IH.
  - intros. by apply poll_subordinate_held.
  - intros sched s Hsub Hfresh. apply subordinate_run; [done| |].
    + intros i j li lj Hi _ _ Hacq _. by rewrite (Hfresh i li Hi) in Hacq.
    + intros i l Hi Hacq. by rewrite (Hfresh i l Hi) in Hacq.
Qed.

(** Two SelfAgent tasks on [notes.md]: the second takes the lock once
    the first has released it, and not before. *)
Lemma C2_subordinate_mutual_exclusion_witness :
  In (EvReleased (lockfile Scenario.self_on_notes) true)
     [EvRetry (lockfile Scenario.self_on_notes) false;
      EvReleased (lockfile Scenario.self_on_notes) true]
  /\ poll Scenario.calm no_fault 20 Scenario.self_on_notes (fs Scenario.contended)
     = Ok (Retry (fs Scenario.contended))
  /\ exclusive
       (run [ DoPoll 0 Scenario.calm no_fault 10; DoPoll 1 Scenario.calm no_fault 20;
              DoRelease 0 None; DoPoll 1 Scenario.calm no_fault 30 ]
            Scenario.duo).2.
Proof.
  split; [|split].
  - exact (proj1 C2_subordinate_mutual_exclusion
             [ DoPoll 0 Scenario.calm no_fault 10; DoPoll 1 Scenario.calm no_fault 20;
               DoRelease 0 None; DoPoll 1 Scenario.calm no_fault 30;
               DoRelease 1 None ]
             Scenario.duo (lockfile Scenario.self_on_notes)
             []
             [EvRetry (lockfile Scenario.self_on_notes) false;
              EvReleased (lockfile Scenario.self_on_notes) true]
             [EvReleased (lockfile Scenario.self_on_notes) true]
             eq_refl).
  - apply (proj1 (proj2 C2_subordinate_mutual_exclusion)); [reflexivity|].
    vm_compute. reflexivity.
  - apply (proj2 (proj2 C2_subordinate_mutual_exclusion)).
    + intros i l Hl. destruct i as [|[|i]]; cbn in Hl; by simplify_eq.
    + intros i l Hl. destruct i as [|[|i]]; cbn in Hl; by simplify_eq.
Defined.

End SystemFacts.

(** ** The observation buffers *)

Section BufferFacts.
Import SelfAgent.

Lemma last_n_length {A} (n : nat) (l : list A) :
  (n <= length l)%nat -> length (last_n n l) = n.
Proof. intros Hn. unfold last_n. rewrite length_skipn. lia. Qed.

Lemma last_n_suffix {A} (n : nat) (l : list A) :
  firstn (length l - n) l ++ last_n n l = l.
Proof. unfold last_n. apply firstn_skipn. Qed.

Lemma append_limited_bound {A} (buf : list A) (x : A) :
  (length buf <= 1000)%nat -> (length (append_limited buf x) <= 1000)%nat.
Proof.
  intros Hbuf. unfold append_limited.
  destruct (Nat.ltb_spec 1000 (length (buf ++ [x]))) as [Hover|Hfit]; [|done].
  rewrite last_n_length; lia.
Qed.

Lemma append_limited_overflow {A} (buf : list A) (x : A) :
  (1000 < length (buf ++ [x]))%nat ->
  append_limited buf x = last_n 500 (buf ++ [x])
  /\ length (append_limited buf x) = 500%nat.
Proof.
  intros Hover. unfold append_limited.
  destruct (Nat.ltb_spec 1000 (length (buf ++ [x]))) as [_|Hfit]; [|lia].
  split; [done|]. apply last_n_length. lia.
Qed.

(** What a run of arrivals does to the two buffers. *)
Lemma deliver_buffers (xs : list Arrival) :
  forall a : Agent,
    _message_buffer (foldl deliver a xs)
      = foldl append_limited (_message_buffer a) (message_entries xs)
    /\ _state_buffer (foldl deliver a xs)
       = foldl append_limited (_state_buffer a) (state_entries xs).
Proof.
  induction xs as [|x xs IH]; intros a; [done|].
  cbn [foldl]. destruct (IH (deliver a x)) as [-> ->].
  destruct x as [now direction channel text | now event data |];
    cbn [message_entries state_entries flat_map app foldl deliver]; [done| |done].
  unfold _on_main_state_change.
  by destruct (bool_decide (event = lit "error")).
Qed.

Lemma foldl_append_limited_bound {A} (xs : list A) :
  forall buf : list A,
    (length buf <= 1000)%nat -> (length (foldl append_limited buf xs) <= 1000)%nat.
Proof.
  induction xs as [|x xs IH]; intros buf Hbuf; [done|].
  cbn [foldl]. apply IH. by apply append_limited_bound.
Qed.

(** C3 (bounded buffers).  Whatever is published, in whatever order, on
    the two monitors of an agent whose buffers hold at most 1000 entries
    (they are empty at first), each buffer holds at most 1000 entries
    afterwards; and a publish that takes a buffer beyond 1000 entries
    leaves it with exactly 500, which are the last 500 of the old entries
    followed by the new one, in their order. *)
Theorem C3_bounded_buffers (a : Agent) (xs : list Arrival) :
  (length (_message_buffer a) <= 1000)%nat ->
  (length (_state_buffer a) <= 1000)%nat ->
  ((length (_message_buffer (foldl deliver a xs)) <= 1000)%nat
   /\ (length (_state_buffer (foldl deliver a xs)) <= 1000)%nat)
  /\ (forall now direction channel text,
        (1000 < length (_message_buffer a ++ [message_entry now direction channel text]))%nat ->
        let after := _message_buffer (_on_message now direction channel text a) in
        length after = 500%nat
        /\ after = last_n 500 (_message_buffer a ++ [message_entry now direction channel text])
        /\ exists dropped,
             _message_buffer a ++ [message_entry now direction channel text]
               = dropped ++ after)
  /\ (forall now event data,
        (1000 < length (_state_buffer a ++ [state_entry now event data]))%nat ->
        let after := _state_buffer (_on_main_state_change now event data a) in
        length after = 500%nat
        /\ after = last_n 500 (_state_buffer a ++ [state_entry now event data])
        /\ exists dropped,
             _state_buffer a ++ [state_entry now event data] = dropped ++ after).
Proof.
  intros Hm Hs. split; [|split].
  - destruct (deliver_buffers xs a) as [-> ->].
    split; by apply foldl_append_limited_bound.
  - intros now direction channel text Hover. cbn zeta.
    unfold _on_message. cbn [_message_buffer set_buffers].
    destruct (append_limited_overflow _ _ Hover) as [Heq Hlen].
    split; [done|]. split; [done|].
    eexists. rewrite Heq. symmetry. apply last_n_suffix.
  - intros now event data Hover. cbn zeta.
    assert (_state_buffer (_on_main_state_change now event data a)
            = append_limited (_state_buffer a) (state_entry now event data)) as ->.
    { unfold _on_main_state_change.
      by destruct (bool_decide (event = lit "error")). }
    destruct (append_limited_overflow _ _ Hover) as [Heq Hlen].
    split; [done|]. split; [done|].
    eexists. rewrite Heq. symmetry. apply last_n_suffix.
Qed.

Lemma C3_bounded_buffers_witness :
  (length (_message_buffer (foldl deliver fresh (Scenario.burst 0 3))) <= 1000)%nat
  /\ (length (_state_buffer (foldl deliver fresh (Scenario.burst 0 3))) <= 1000)%nat.
Proof.
  exact (proj1 (C3_bounded_buffers fresh (Scenario.burst 0 3)
                  (Nat.le_0_l 1000) (Nat.le_0_l 1000))).
Defined.

Lemma append_limited_map {A B} (f : A -> B) (buf : list A) (x : A) :
  append_limited (map f buf) (f x) = map f (append_limited buf x).
Proof.
  unfold append_limited, last_n.
  change (map f buf ++ [f x]) with (map f buf ++ map f [x]).
  rewrite <- map_app, length_map.
  destruct (1000 <? length (buf ++ [x]))%nat; [|done].
  apply skipn_map.
Qed.

Lemma foldl_append_limited_map {A B} (f : A -> B) (xs : list A) :
  forall buf : list A,
    foldl append_limited (map f buf) (map f xs) = map f (foldl append_limited buf xs).
Proof.
  induction xs as [|x xs IH]; intros buf; [done|].
  cbn [map foldl]. by rewrite append_limited_map, IH.
Qed.

Lemma message_entries_messages (now direction : nat -> str) (channel : nat -> option str)
    (text : nat -> str) (ixs : list nat) :
  message_entries (map (fun i => Message (now i) (direction i) (channel i) (text i)) ixs)
  = map (fun i => message_entry (now i) (direction i) (channel i) (text i)) ixs.
Proof. induction ixs as [|i ixs IH]; [done|]. cbn. by rewrite <- IH. Qed.

(** The buffer policy on the positions of 1200 entries appended in a row. *)
Lemma burst_1200_positions :
  foldl append_limited [] (seq 0 1200) = seq 501 699.
Proof. vm_compute. reflexivity. Qed.

(** C4, as the specification words it, fails: after 1200 messages in a
    row the message buffer does not hold 500 entries. *)
Lemma C4_counterexample :
  length (_message_buffer (foldl deliver fresh (Scenario.burst 0 1200))) <> 500%nat.
Proof. vm_compute. discriminate. Qed.

(** C4 (amended).  After 1200 messages published in a row into an empty
    message buffer, with no drain in between, the buffer holds 699 entries:
    those of the messages 501 to 1199 (counting from 0), in order. *)
Theorem C4_1200_messages (a : Agent) (now direction : nat -> str)
    (channel : nat -> option str) (text : nat -> str) :
  _message_buffer a = [] ->
  let published :=
    map (fun i => Message (now i) (direction i) (channel i) (text i)) (seq 0 1200) in
  let after := _message_buffer (foldl deliver a published) in
  length after = 699%nat
  /\ after = map (fun i => message_entry (now i) (direction i) (channel i) (text i))
               (seq 501 699).
Proof.
  intros Hempty published after.
  assert (after = map (fun i => message_entry (now i) (direction i) (channel i) (text i))
                    (seq 501 699)) as ->.
  { subst after published.
    destruct (deliver_buffers
                (map (fun i => Message (now i) (direction i) (channel i) (text i))
                   (seq 0 1200)) a) as [-> _].
    rewrite Hempty, message_entries_messages.
    change (@nil MessageEvent)
      with (map (fun i => message_entry (now i) (direction i) (channel i) (text i)) []).
    by rewrite foldl_append_limited_map, burst_1200_positions. }
  split; [|done]. by rewrite length_map, length_seq.
Qed.

Lemma C4_1200_messages_witness :
  length (_message_buffer (foldl deliver fresh (Scenario.burst 0 1200))) = 699%nat.
Proof.
  exact (proj1 (C4_1200_messages fresh
                  (fun i => lit (pretty i)) (fun _ => lit "inbound")
                  (fun _ => Some (lit "cli")) (fun i => lit (pretty i))
                  eq_refl)).
Defined.

End BufferFacts.

(** ** The locked write tool *)

Section LockedWriteFacts.
Import FileLock LockedWriteFileTool.

Variable lower_cp : case_mapping.
Hypothesis lower_cp_ascii :
  forall before c after, (c < 128)%N -> lower_cp before c after = [ascii_lower c].

Lemma lower_MEMORY_md (before after : str) :
  lower_in lower_cp before (lit "MEMORY.md") after = lit "memory" ++ lit ".md".
Proof.
  rewrite (lower_in_ascii lower_cp (lit "MEMORY.md") lower_cp_ascii); [done|].
  repeat constructor.
Qed.

(** A path that names [MEMORY.md] contains [memory] once lower-cased, so
    the first test of line 40 never decides. *)
Lemma memory_test_redundant (filepath : str) :
  contains (lit "MEMORY.md") filepath = true ->
  contains (lit "memory") (lower lower_cp filepath) = true.
Proof.
  intros Hin. apply contains_spec in Hin as (a & b & ->).
  unfold lower. rewrite !lower_in_app, lower_MEMORY_md, <- (app_assoc (lit "memory")).
  apply contains_app.
Qed.

Lemma tagged_content_refines (filepath content : str) :
  tagged_content lower_cp filepath content = tagged_content_spec filepath content.
Proof.
  unfold tagged_content, tagged_content_spec.
  destruct (contains (lit "MEMORY.md") filepath) eqn:Hin.
  - rewrite (memory_test_redundant filepath Hin). cbn [andb].
    by destruct (startswith tag (strip content)).
  - by rewrite andb_false_r.
Qed.

(** C10 (the tag on MEMORY.md).  When the resolved path contains
    [MEMORY.md] and the stripped content does not start with the tag, the
    content handed to the inherited write is the original content behind
    the tag and a space; when it does start with the tag, and for every
    other path, it is the original content.  [execute] hands exactly that
    content to the inherited write, inside the lock.  Of [str.lower] only
    its effect on ASCII is used. *)
Theorem C10_memory_md_tagged (base : WriteFileTool) (is_main_agent : bool) (e : Env)
    (unlink_fault : option string) (path content : str) (w : World) :
  (forall filepath,
     (contains (lit "MEMORY.md") filepath = true ->
      startswith tag (strip content) = false ->
      tagged_content lower_cp filepath content = tag_space ++ content)
     /\ (contains (lit "MEMORY.md") filepath = true ->
         startswith tag (strip content) = true ->
         tagged_content lower_cp filepath content = content)
     /\ (contains (lit "MEMORY.md") filepath = false ->
         tagged_content lower_cp filepath content = content))
  /\ execute base lower_cp is_main_agent e unlink_fault path content w
     = match _resolve_path base path with
       | Raise x => Some (Raise x, w)
       | Ok filepath =>
           file_lock e unlink_fault filepath 10000 is_main_agent
             (fun w1 => super_execute base path (tagged_content_spec filepath content) w1)
             w
       end.
Proof.
  split.
  - intros filepath. rewrite tagged_content_refines. unfold tagged_content_spec.
    repeat split; intros; by repeat match goal with H : _ = _ |- _ => rewrite H end.
  - unfold execute. destruct (_resolve_path base path) as [filepath|x]; [|done].
    by rewrite tagged_content_refines.
Qed.

End LockedWriteFacts.

Lemma C10_memory_md_tagged_witness :
  (forall filepath,
     (contains (lit "MEMORY.md") filepath = true ->
      startswith LockedWriteFileTool.tag (strip (lit "prefer short answers")) = false ->
      LockedWriteFileTool.tagged_content Scenario.lower_ascii_only filepath
        (lit "prefer short answers")
      = LockedWriteFileTool.tag_space ++ lit "prefer short answers")
     /\ (contains (lit "MEMORY.md") filepath = true ->
         startswith LockedWriteFileTool.tag (strip (lit "prefer short answers")) = true ->
         LockedWriteFileTool.tagged_content Scenario.lower_ascii_only filepath
           (lit "prefer short answers")
         = lit "prefer short answers")
     /\ (contains (lit "MEMORY.md") filepath = false ->
         LockedWriteFileTool.tagged_content Scenario.lower_ascii_only filepath
           (lit "prefer short answers")
         = lit "prefer short answers"))
  /\ match LockedWriteFileTool.execute Scenario.plain_write Scenario.lower_ascii_only
             false Scenario.calm None (lit "memory/MEMORY.md")
             (lit "prefer short answers") Scenario.idle with
     | Some (Ok _, w') =>
         FileLock.fs w' !! lit "workspace/memory/MEMORY.md"
         = Some (LockedWriteFileTool.tag_space ++ lit "prefer short answers")
     | _ => False
     end.
Proof.
  split.
  - exact (proj1 (C10_memory_md_tagged Scenario.lower_ascii_only
                    (fun _ c _ _ => eq_refl) Scenario.plain_write false Scenario.calm None
                    (lit "memory/MEMORY.md") (lit "prefer short answers") Scenario.idle)).
  - rewrite (proj2 (C10_memory_md_tagged Scenario.lower_ascii_only
                      (fun _ c _ _ => eq_refl) Scenario.plain_write false Scenario.calm None
                      (lit "memory/MEMORY.md") (lit "prefer short answers") Scenario.idle)).
    vm_compute. reflexivity.
Defined.

(** ** The reflection task *)

Section AgentFacts.
Import SelfAgent.
Context {E : Type} (c : Collaborators E) (cfg : Config).

Lemma bind_ok {A B} (m : M E A) (k : A -> M E B) (w w' : World E) (a : A) :
  m w = (Ok a, w') -> bind m k w = k a w'.
Proof. unfold bind. by intros ->. Qed.

Lemma bind_raise {A B} (m : M E A) (k : A -> M E B) (w w' : World E) (x : exn) :
  m w = (Raise x, w') -> bind m k w = (Raise x, w').
Proof. unfold bind. by intros ->. Qed.

Lemma logger_run (r : LogRecord) (w : World E) :
  logger c cfg r w = (emit c cfg r, mkWorld (logged r (agent w)) (tape w) (ext w)).
Proof. reflexivity. Qed.

Lemma logger_ok (r : LogRecord) (w : World E) :
  emit c cfg r = Ok tt ->
  logger c cfg r w = (Ok tt, mkWorld (logged r (agent w)) (tape w) (ext w)).
Proof. intros Hemit. by rewrite logger_run, Hemit. Qed.

(** A message of fixed words and numbers is printed wherever it goes. *)
Lemma emit_fixed (r : LogRecord) :
  interpolated c r = None -> emit c cfg r = Ok tt.
Proof.
  intros Hfixed. unfold emit, print_line. rewrite Hfixed.
  by destruct (console_output cfg && (log_level cfg <=? levelno (level_of r))).
Qed.

Lemma log_reflection_analyzing (messages states : nat) (w : World E) :
  _log_reflection c cfg (Analyzing messages states) w
  = (Ok tt,
     mkWorld (logged (Reflection (Analyzing messages states)) (agent w)) (tape w) (ext w)).
Proof.
  unfold _log_reflection, bind, lift, print_line. cbn [interpolated].
  by rewrite logger_ok by by apply emit_fixed.
Qed.

(** *** The buffers belong to the monitors *)

Lemma message_entries_app (xs ys : list Arrival) :
  message_entries (xs ++ ys) = message_entries xs ++ message_entries ys.
Proof. apply flat_map_app. Qed.

Lemma state_entries_app (xs ys : list Arrival) :
  state_entries (xs ++ ys) = state_entries xs ++ state_entries ys.
Proof. apply flat_map_app. Qed.

Lemma arrived_app (a b : list Wake) : arrived (a ++ b) = arrived a ++ arrived b.
Proof. unfold arrived. by rewrite map_app, concat_app. Qed.

Lemma advances_refl (w : World E) : advances w w.
Proof. by exists []. Qed.

Lemma advances_same (w w' : World E) :
  tape w' = tape w ->
  _message_buffer (agent w') = _message_buffer (agent w) ->
  _state_buffer (agent w') = _state_buffer (agent w) ->
  advances w w'.
Proof. intros Ht Hm Hs. exists []. by rewrite Ht, Hm, Hs. Qed.

Lemma advances_trans (w1 w2 w3 : World E) :
  advances w1 w2 -> advances w2 w3 -> advances w1 w3.
Proof.
  intros (c1 & Ht1 & Hm1 & Hs1) (c2 & Ht2 & Hm2 & Hs2). exists (c1 ++ c2).
  rewrite arrived_app, message_entries_app, state_entries_app, !foldl_app.
  rewrite <- Hm1, <- Hs1, <- app_assoc, <- Ht2. done.
Qed.

Lemma framed_ret {A} (a : A) : framed (ret (E := E) a).
Proof. intros w r w' [= <- <-]. apply advances_refl. Qed.

Lemma framed_raise {A} (x : exn) : framed (raise (E := E) (A := A) x).
Proof. intros w r w' [= <- <-]. apply advances_refl. Qed.

Lemma framed_lift {A} (r : res A) : framed (lift (E := E) r).
Proof. intros w r' w' [= <- <-]. apply advances_refl. Qed.

Lemma framed_logger (r : LogRecord) : framed (logger c cfg r).
Proof. intros w r' w' [= _ <-]. by apply advances_same. Qed.

Lemma framed_external {A} (f : E -> res A * E) : framed (external f).
Proof.
  intros w r w'. unfold external. destruct (f (ext w)) as [r0 x].
  intros [= <- <-]. by apply advances_same.
Qed.

Lemma framed_suspend : framed (suspend (E := E)).
Proof.
  intros w r w'. unfold suspend. destruct (tape w) as [|k rest] eqn:Htape.
  - intros [= <- <-]. apply advances_refl.
  - intros [= _ <-]. exists [k]. cbn [tape agent]. split; [done|].
    unfold arrived. cbn [map concat]. rewrite app_nil_r.
    apply deliver_buffers.
Qed.

Lemma framed_bind {A B} (m : M E A) (k : A -> M E B) :
  framed m -> (forall a, framed (k a)) -> framed (bind m k).
Proof.
  intros Hm Hk w r w' Hrun. unfold bind in Hrun.
  destruct (m w) as [[a|x] w1] eqn:Hmw.
  - eapply advances_trans; [by eapply Hm | by eapply Hk].
  - injection Hrun as <- <-. by eapply Hm.
Qed.

Lemma framed_try {A} (m : M E A) (h : exn -> M E A) :
  framed m -> (forall x, framed (h x)) -> framed (try_except_Exception m h).
Proof.
  intros Hm Hh w r w' Hrun. unfold try_except_Exception in Hrun.
  destruct (m w) as [[a|x] w1] eqn:Hmw.
  - injection Hrun as <- <-. by eapply Hm.
  - destruct (is_Exception x).
    + eapply advances_trans; [by eapply Hm | by eapply Hh].
    + injection Hrun as <- <-. by eapply Hm.
Qed.

Lemma framed_log_reflection (note : ReflectionNote) : framed (_log_reflection c cfg note).
Proof.
  unfold _log_reflection.
  apply framed_bind; [apply framed_lift|intros _]. apply framed_logger.
Qed.

Lemma framed_execute_tool_calls (calls : list ToolCall) :
  forall messages, framed (execute_tool_calls c cfg calls messages).
Proof.
  induction calls as [|tool_call rest IH]; intros messages; cbn [execute_tool_calls].
  - apply framed_ret.
  - apply framed_bind; [apply framed_logger|intros _].
    apply framed_bind; [apply framed_suspend|intros _].
    apply framed_bind; [apply framed_external|intros result].
    apply IH.
Qed.

Lemma framed_iteration (iteration : nat) (messages : list ChatMessage) :
  framed (guarded_iteration c cfg iteration messages).
Proof.
  apply framed_try.
  - unfold iteration_body.
    apply framed_bind; [apply framed_suspend|intros _].
    apply framed_bind; [apply framed_external|intros response].
    apply framed_bind; [apply framed_logger|intros _].
    destruct (negb (has_tool_calls response)); [apply framed_ret|].
    apply framed_bind; [apply framed_execute_tool_calls|intros messages'].
    apply framed_ret.
  - intros x. apply framed_bind; [apply framed_logger|intros _]. apply framed_raise.
Qed.

Lemma framed_agent_loop (n : nat) :
  forall iteration messages, framed (agent_loop_from c cfg n iteration messages).
Proof.
  induction n as [|n IH]; intros iteration messages; cbn [agent_loop_from].
  - apply framed_ret.
  - apply framed_bind; [apply framed_iteration|intros [result|messages']].
    + apply framed_ret.
    + apply IH.
Qed.

(** After a reflection, whatever its outcome, the buffers hold what
    arrived while it was suspended, and nothing of what it drained. *)
Lemma perform_reflection_buffers (w w' : World E) (r : res unit) :
  _perform_reflection c cfg w = (r, w') ->
  exists consumed,
    tape w = consumed ++ tape w'
    /\ _message_buffer (agent w') = foldl append_limited [] (message_entries (arrived consumed))
    /\ _state_buffer (agent w') = foldl append_limited [] (state_entries (arrived consumed)).
Proof.
  unfold _perform_reflection, drain.
  destruct (is_nil (_message_buffer (agent w)) && is_nil (_state_buffer (agent w))).
  - intros [= <- <-]. by exists [].
  - intros Hrun.
    assert (Hframed : framed
              (_log_reflection c cfg
                 (Analyzing (length (_message_buffer (agent w)))
                    (length (_state_buffer (agent w)))) ;;
               do user_prompt <-
                 lift (_build_reflection_prompt c (_message_buffer (agent w))
                         (_state_buffer (agent w))) ;
               do result <- _run_agent_loop c cfg (_build_system_prompt cfg) user_prompt ;
               _log_reflection c cfg (Completed (slice_to 100 result)))).
    { apply framed_bind; [apply framed_log_reflection|intros _].
      apply framed_bind; [apply framed_lift|intros user_prompt].
      apply framed_bind; [apply framed_agent_loop|intros result].
      apply framed_log_reflection. }
    apply Hframed in Hrun. exact Hrun.
Qed.

End AgentFacts.

Section LoopBound.
Import SelfAgent.
Context {E : Type} (c : Collaborators E) (cfg : Config).

Lemma iterations_logged_snoc (l : list LogRecord) (r : LogRecord) :
  iterations_logged (l ++ [r])
  = (iterations_logged l + if is_iteration r then 1 else 0)%nat.
Proof.
  unfold iterations_logged. rewrite List.filter_app, length_app.
  cbn [List.filter]. by destruct (is_iteration r).
Qed.

Lemma deliver_iterations (a : Agent) (x : Arrival) :
  iterations_logged (log (deliver a x)) = iterations_logged (log a).
Proof.
  destruct x as [now direction channel text | now event data |]; cbn; [done| |done].
  unfold _on_main_state_change. destruct (bool_decide (event = lit "error")); [|done].
  cbn [log logged set_buffers]. rewrite iterations_logged_snoc. cbn. lia.
Qed.

Lemma foldl_deliver_iterations (xs : list Arrival) :
  forall a, iterations_logged (log (foldl deliver a xs)) = iterations_logged (log a).
Proof.
  induction xs as [|x xs IH]; intros a; [done|].
  cbn [foldl]. by rewrite IH, deliver_iterations.
Qed.


Hypothesis provider_asks_for_tools :
  forall messages x, exists response x',
    chat c messages x = (Ok response, x')
    /\ has_tool_calls response = true
    /\ lines_print c cfg response.

Hypothesis tools_answer :
  forall name args x, exists result x', tools_execute c name args x = (Ok result, x').





End LoopBound.


(** The stub provider of the scenario is called once per iteration. *)
Example insistent_provider_called_three_times :
  SelfAgent._run_agent_loop Scenario.insistent Scenario.three_rounds
    (lit "system") (lit "reflect") Scenario.at_rest
  = (Ok (lit "Max iterations reached"),
     SelfAgent.mkWorld
       {| SelfAgent._message_buffer := [];
          SelfAgent._state_buffer := [];
          SelfAgent._running := true;
          SelfAgent.log :=
            [ SelfAgent.IterationDebug 1 (lit "let me check");
              SelfAgent.ExecutingTool (lit "list_dir");
              SelfAgent.IterationDebug 2 (lit "let me check");
              SelfAgent.ExecutingTool (lit "list_dir");
              SelfAgent.IterationDebug 3 (lit "let me check");
              SelfAgent.ExecutingTool (lit "list_dir") ] |}
       [] 3%nat).
Proof. vm_compute. reflexivity. Qed.

Section Scheduler.
Import SelfAgent.
Context {E : Type} (c : Collaborators E) (cfg : Config).

(** C8 (drain).  The critical section of a tick returns the two buffers
    as they were and leaves both empty; a later drain returns only what
    the monitors appended after the earlier one, so nothing is returned
    twice; after the tick, whatever its outcome, the buffers hold only what
    arrived while it was suspended; and a tick that finds both buffers
    empty returns at once, the world being exactly as it was: nothing
    logged, no prompt built, no call to the provider or to a tool. *)
Theorem C8_drain_and_skip (a : Agent) (xs : list Arrival) (w : World E) :
  (let '(messages, states, a') := drain a in
   messages = _message_buffer a /\ states = _state_buffer a
   /\ _message_buffer a' = [] /\ _state_buffer a' = []
   /\ (let '(messages2, states2, _) := drain (foldl deliver a' xs) in
       messages2 = foldl append_limited [] (message_entries xs)
       /\ states2 = foldl append_limited [] (state_entries xs)))
  /\ (forall r w',
        _perform_reflection c cfg w = (r, w') ->
        exists consumed,
          tape w = consumed ++ tape w'
          /\ _message_buffer (agent w')
             = foldl append_limited [] (message_entries (arrived consumed))
          /\ _state_buffer (agent w')
             = foldl append_limited [] (state_entries (arrived consumed)))
  /\ (_message_buffer (agent w) = [] -> _state_buffer (agent w) = [] ->
      _perform_reflection c cfg w = (Ok tt, w)).
Proof.
  split; [|split].
  - cbn [drain]. repeat (split; [done|]).
    apply (deliver_buffers xs (set_buffers [] [] a)).
  - intros r w'. apply perform_reflection_buffers.
  - intros Hm Hs. unfold _perform_reflection, drain. rewrite Hm, Hs. cbn [is_nil andb].
    destruct w as [[ms ss running lg] tp x]. cbn in Hm, Hs. by subst.
Qed.


End Scheduler.

Lemma C8_drain_and_skip_witness :
  SelfAgent._perform_reflection Scenario.insistent Scenario.three_rounds Scenario.at_rest
  = (Ok tt, Scenario.at_rest).
Proof.
  exact (proj2 (proj2 (C8_drain_and_skip Scenario.insistent Scenario.three_rounds
                         SelfAgent.started [] Scenario.at_rest))
           eq_refl eq_refl).
Defined.



(** * Further properties *)

(** ** More on the file lock *)

Section FileLockMore.
Import FileLock.

(** What a call that returns has done. *)
Lemma acquire_loop_outcome (e : Env) (l : t) (fuel : nat) :
  forall (k : nat) (start : Z) (w : World) (b : bool) l' w',
    acquire_loop fuel e k start l w = Some (Ok b, l', w') ->
    clock w <= clock w'
    /\ if b then
         l' = set_acquired true l
         /\ clock w' - start < timeout l
         /\ (fs w' !! lockfile l = Some (marker_content e (clock w') (is_main_agent l))
             \/ (is_main_agent l = true
                 /\ fs w' !! lockfile l = Some (override_content e (clock w'))))
       else l' = l /\ timeout l <= clock w' - start.
Proof.
  induction fuel as [|fuel IH]; intros k start w b l' w'; cbn [acquire_loop]; [done|].
  destruct (Z.ltb_spec (clock w - start) (timeout l)) as [Hlt|Hge].
  - destruct (poll e (io e k) (clock w) l (fs w)) as [[m'|m']|x] eqn:Hp; [| |done].
    + intros [= <- <- <-]. cbn [clock fs]. split; [done|]. split; [done|]. split; [done|].
      apply poll_acquired in Hp as [(_ & _ & ->)|(Hmain & _ & _ & ->)];
        rewrite lookup_insert_eq; eauto.
    + destruct (cancelled (sleeps e k)); [done|].
      intros Hrun. apply IH in Hrun as [Hclock Hr]. cbn [sleep clock] in Hclock.
      split; [lia|done].
  - intros [= <- <- <-]. done.
Qed.

(** X1.  A call to [acquire] ends, after [timeout + 1] passes through
    its loop at most.  When it returns True the object has its flag set,
    the timeout had not elapsed, and the marker is the caller's own
    record, stamped with the time of the return: the record of line 45,
    or for a privileged caller the one of the override.  When it returns
    False the timeout has elapsed and the object is unchanged.  No pass
    through the loop changes a file other than the marker; and a write
    that fails once the file is open leaves a marker behind, which is not
    a record and behind which a subordinate caller is left waiting. *)
Theorem acquire_outcome (e : Env) (l : FileLock.t) (w : World) :
  is_Some (acquire e l w)
  /\ (forall (b : bool) l' w',
        acquire e l w = Some (Ok b, l', w') ->
        clock w <= clock w'
        /\ if b then
             l' = set_acquired true l
             /\ clock w' - clock w < timeout l
             /\ (fs w' !! lockfile l
                 = Some (marker_content e (clock w') (is_main_agent l))
                 \/ (is_main_agent l = true
                     /\ fs w' !! lockfile l = Some (override_content e (clock w'))))
           else l' = l /\ timeout l <= clock w' - clock w)
  /\ (forall f now m pl,
        poll e f now l m = Ok pl -> touches_only (lockfile l) m (files_of pl))
  /\ (forall f now m kept msg,
        is_main_agent l = false ->
        m !! lockfile l = None ->
        create_fault f = Some (WriteFails kept msg) ->
        poll e f now l m
        = Ok (Retry (<[lockfile l := take kept (marker_content e now false)]> m))
        /\ forall f' now',
             poll e f' now' l (<[lockfile l := take kept (marker_content e now false)]> m)
             = Ok (Retry (<[lockfile l := take kept (marker_content e now false)]> m))).
Proof.
  split; [apply acquire_total|]. split; [|split].
  - intros b l' w' Hrun. by apply (acquire_loop_outcome e l _ _ _ _ _ _ _ Hrun).
  - intros f now m pl Hp.
    destruct (poll_frame e f now l m) as (pl' & Hp' & Htouch). congruence.
  - intros f now m kept msg Hsub Hfree Hfault. split.
    + apply file_exists_false in Hfree.
      unfold poll, poll_create, poll_override. rewrite Hfree, Hfault, Hsub.
      cbn [negb write_text catch_Exception is_Exception andb]. done.
    + intros f' now'. apply poll_subordinate_held; [done|].
      apply file_exists_true. rewrite lookup_insert_eq. eauto.
Qed.

(** On a full disk the SelfAgent leaves an empty marker on a free file
    and waits out its timeout behind it. *)
Lemma acquire_outcome_witness :
  exists w',
    acquire Scenario.disk_full Scenario.self_on_notes Scenario.idle
    = Some (Ok false, Scenario.self_on_notes, w')
    /\ fs w' !! lockfile Scenario.self_on_notes = Some []
    /\ timeout Scenario.self_on_notes <= clock w' - clock Scenario.idle.
Proof.
  assert (Hrun : exists w',
            acquire Scenario.disk_full Scenario.self_on_notes Scenario.idle
            = Some (Ok false, Scenario.self_on_notes, w')
            /\ fs w' !! lockfile Scenario.self_on_notes = Some []).
  { eexists. split; vm_compute; reflexivity. }
  destruct Hrun as (w' & Hrun & Hmarker). exists w'. split; [exact Hrun|]. split; [exact Hmarker|].
  exact (proj2 (proj2 (proj1 (proj2 (acquire_outcome Scenario.disk_full
                                       Scenario.self_on_notes Scenario.idle))
                         false Scenario.self_on_notes w' Hrun))).
Defined.

(** X2.  With a timeout that is not positive the loop is never entered:
    [acquire] returns False at once and leaves everything as it was, even
    when the resource is free. *)
Theorem acquire_without_time (e : Env) (l : FileLock.t) (w : World) :
  timeout l <= 0 ->
  acquire e l w = Some (Ok false, l, w).
Proof.
  intros Htimeout. unfold acquire, acquire_fuel.
  rewrite Nat.add_comm. cbn [Nat.add acquire_loop].
  destruct (Z.ltb_spec (clock w - clock w) (timeout l)); [lia|done].
Qed.

Lemma acquire_without_time_witness :
  acquire Scenario.calm (FileLock.init Scenario.notes_md 0 true) Scenario.idle
  = Some (Ok false, FileLock.init Scenario.notes_md 0 true, Scenario.idle).
Proof.
  apply (acquire_without_time Scenario.calm (FileLock.init Scenario.notes_md 0 true)
           Scenario.idle).
  cbn. lia.
Defined.

Lemma role_tag_marker_content (e : Env) (now : Z) (main : bool) :
  role_tag (marker_content e now main) = if main then lit "main" else lit "selfagent".
Proof.
  unfold marker_content.
  rewrite (app_assoc _ (lit "|") (repr_time e now ++ _)).
  rewrite (app_assoc _ (repr_time e now) (lit "|" ++ _)).
  rewrite role_tag_last_field; by destruct main.
Qed.

(** Every sleep takes its time. *)
Lemma waited_lower_bound (e : Env) (n : nat) :
  forall k, Z.of_nat n <= waited e k n.
Proof.
  induction n as [|n IH]; intros k; cbn [waited]; [lia|].
  specialize (IH (S k)). lia.
Qed.

Lemma acquire_loop_after_release (e : Env) (l : t) (j : nat) :
  forall (fuel k : nat) (start : Z) (w : World),
    is_main_agent l = false ->
    (forall i, (i < j)%nat -> is_Some (drift e k i (fs w) !! lockfile l)) ->
    drift e k j (fs w) !! lockfile l = None ->
    (forall i, (i < j)%nat -> cancelled (sleeps e (k + i)) = false) ->
    create_fault (io e (k + j)) = None ->
    clock w - start + waited e k j < timeout l ->
    0 <= clock w - start ->
    (j < fuel)%nat ->
    acquire_loop fuel e k start l w
    = Some (Ok true, set_acquired true l,
            {| fs := <[lockfile l := marker_content e (clock w + waited e k j) false]>
                       (drift e k j (fs w));
               clock := clock w + waited e k j |}).
Proof.
  induction j as [|j IH]; intros fuel k start w Hsub Hheld Hfree Hcancel Hwrite Htime Hpos Hfuel.
  - destruct fuel as [|fuel]; [lia|]. cbn [acquire_loop waited drift] in *.
    rewrite Z.add_0_r in *. rewrite Nat.add_0_r in Hwrite.
    destruct (Z.ltb_spec (clock w - start) (timeout l)); [|lia].
    by rewrite (poll_absent e (io e k) (clock w) l (fs w) Hfree Hwrite), Hsub.
  - destruct fuel as [|fuel]; [lia|]. cbn [acquire_loop waited drift] in *.
    pose proof (waited_lower_bound e j (S k)) as Hw.
    destruct (Z.ltb_spec (clock w - start) (timeout l)); [|lia].
    rewrite (poll_subordinate_held e (io e k) (clock w) l (fs w) Hsub).
    2:{ apply file_exists_true. apply (Hheld O). lia. }
    specialize (Hcancel O ltac:(lia)) as Hc0. rewrite Nat.add_0_r in Hc0. rewrite Hc0.
    rewrite (IH fuel (S k) start (sleep (sleeps e k) (fs w) (clock w))).
    + cbn [sleep fs clock]. by rewrite !Z.add_assoc.
    + done.
    + intros i Hi. cbn [sleep fs]. apply (Hheld (S i)). lia.
    + done.
    + intros i Hi. replace (S k + i)%nat with (k + S i)%nat by lia. apply Hcancel. lia.
    + by replace (S k + j)%nat with (k + S j)%nat by lia.
    + cbn [sleep clock]. lia.
    + cbn [sleep clock]. lia.
    + lia.
Qed.

(** X3.  A subordinate caller that finds the marker in place for its
    first [j] passes, and gone before the next one, takes the lock on that
    pass, provided this happens within its timeout, nobody cancels it and
    its write goes through: it returns True after exactly the time of its
    [j] sleeps, and the marker is its own record, tagged [selfagent].
    With [j = 0] this is a caller that finds the resource free. *)
Theorem acquire_after_release (e : Env) (l : FileLock.t) (w : World) (j : nat) :
  is_main_agent l = false ->
  (forall i, (i < j)%nat -> is_Some (drift e 0 i (fs w) !! lockfile l)) ->
  drift e 0 j (fs w) !! lockfile l = None ->
  (forall i, (i < j)%nat -> cancelled (sleeps e i) = false) ->
  create_fault (io e j) = None ->
  waited e 0 j < timeout l ->
  acquire e l w
  = Some (Ok true, set_acquired true l,
          {| fs := <[lockfile l := marker_content e (clock w + waited e 0 j) false]>
                     (drift e 0 j (fs w));
             clock := clock w + waited e 0 j |})
  /\ role_tag (marker_content e (clock w + waited e 0 j) false) = lit "selfagent".
Proof.
  intros Hsub Hheld Hfree Hcancel Hwrite Htime.
  split; [|apply (role_tag_marker_content e _ false)].
  unfold acquire. apply acquire_loop_after_release; try done; try lia.
  pose proof (waited_lower_bound e j 0). unfold acquire_fuel. lia.
Qed.

Lemma acquire_after_release_witness :
  acquire Scenario.releasing Scenario.self_on_notes Scenario.contended
  = Some (Ok true, set_acquired true Scenario.self_on_notes,
          {| fs := <[lockfile Scenario.self_on_notes :=
                       marker_content Scenario.releasing
                         (clock Scenario.contended + waited Scenario.releasing 0 2) false]>
                     (drift Scenario.releasing 0 2 (fs Scenario.contended));
             clock := clock Scenario.contended + waited Scenario.releasing 0 2 |})
  /\ role_tag (marker_content Scenario.releasing
                 (clock Scenario.contended + waited Scenario.releasing 0 2) false)
     = lit "selfagent".
Proof.
  apply (acquire_after_release Scenario.releasing Scenario.self_on_notes
           Scenario.contended 2).
  - reflexivity.
  - intros i Hi. destruct i as [|[|i]]; [vm_compute; eauto|vm_compute; eauto|lia].
  - vm_compute. reflexivity.
  - intros i Hi. destruct i as [|[|i]]; [reflexivity|reflexivity|lia].
  - reflexivity.
  - vm_compute. reflexivity.
Defined.

End FileLockMore.

(** A code point that is none of those of a given text. *)
Ltac not_in_text :=
  let H := fresh "Hin" in
  intros H; vm_compute in H;
  repeat (apply elem_of_cons in H as [H|H]; [discriminate H|]);
  by apply elem_of_nil in H.

Section FileLockRoundTrips.
Import FileLock.

Lemma set_acquired_back (l : FileLock.t) :
  _acquired l = false -> set_acquired false (set_acquired true l) = l.
Proof. destruct l as [fp lf t main acq]. cbn. by intros ->. Qed.

Lemma acquire_free (e : Env) (l : FileLock.t) (w : World) :
  fs w !! lockfile l = None -> 0 < timeout l -> create_fault (io e 0) = None ->
  acquire e l w
  = Some (Ok true, set_acquired true l,
          {| fs := <[lockfile l := marker_content e (clock w) (is_main_agent l)]> (fs w);
             clock := clock w |}).
Proof.
  intros Hfree Htimeout Hwrite. unfold acquire, acquire_fuel.
  rewrite Nat.add_comm. cbn [Nat.add acquire_loop].
  replace (clock w - clock w) with 0 by lia.
  destruct (Z.ltb_spec 0 (timeout l)); [|lia].
  by rewrite (poll_absent e (io e 0) (clock w) l (fs w) Hfree Hwrite).
Qed.

(** X4.  Taking a free lock and releasing it is a round trip: with a
    positive timeout and file operations that go through, [acquire]
    returns True at once, and the [release] that follows gives back the
    files and the object exactly as they were before. *)
Theorem acquire_release_round_trip (e : Env) (l : FileLock.t) (w : World) :
  _acquired l = false ->
  fs w !! lockfile l = None ->
  0 < timeout l ->
  create_fault (io e 0) = None ->
  exists l1 w1,
    acquire e l w = Some (Ok true, l1, w1)
    /\ clock w1 = clock w
    /\ is_Some (fs w1 !! lockfile l)
    /\ release None l1 (fs w1) = Ok (l, fs w).
Proof.
  intros Hflag Hfree Htimeout Hwrite.
  eexists _, _. split; [by apply acquire_free|].
  cbn [fs clock]. split; [done|]. split.
  - rewrite lookup_insert_eq. eauto.
  - unfold release. cbn [_acquired set_acquired lockfile andb].
    rewrite (file_exists_lookup _ _ _ (lookup_insert_eq _ _ _)).
    unfold unlink. rewrite lookup_insert_eq. cbn.
    by rewrite delete_insert_id, set_acquired_back.
Qed.

Lemma acquire_release_round_trip_witness :
  exists l1 w1,
    acquire Scenario.calm Scenario.self_on_notes Scenario.idle = Some (Ok true, l1, w1)
    /\ clock w1 = clock Scenario.idle
    /\ is_Some (fs w1 !! lockfile Scenario.self_on_notes)
    /\ release None l1 (fs w1) = Ok (Scenario.self_on_notes, fs Scenario.idle).
Proof.
  apply (acquire_release_round_trip Scenario.calm Scenario.self_on_notes Scenario.idle).
  - reflexivity.
  - reflexivity.
  - cbn. lia.
  - reflexivity.
Defined.

(** *** The record of a privileged caller *)

Lemma contains_head (c : N) (p s : str) :
  contains (c :: p) s = true -> c ∈ s.
Proof.
  intros Hin. apply contains_spec in Hin as (a & b & ->).
  apply elem_of_app. right. apply elem_of_cons. by left.
Qed.

Lemma pretty_N_char_digit (x : N) :
  (48 <= Ascii.N_of_ascii (pretty_N_char x) <= 57)%N.
Proof. unfold pretty_N_char. repeat case_match; cbn; lia. Qed.

Lemma pretty_N_go_digits (x : N) :
  forall s : string,
    Forall (fun c => (48 <= c <= 57)%N) (lit s) ->
    Forall (fun c => (48 <= c <= 57)%N) (lit (pretty_N_go x s)).
Proof.
  induction (N.lt_wf_0 x) as [x _ IH]; intros s Hs.
  destruct (decide (0 < x)%N) as [Hpos|Hzero].
  - rewrite pretty_N_go_step by done. apply IH.
    + by apply N.div_lt.
    + constructor; [apply pretty_N_char_digit|done].
  - replace x with 0%N by lia. by rewrite pretty_N_go_0.
Qed.

Lemma pretty_N_digits (x : N) : Forall (fun c => (48 <= c <= 57)%N) (lit (pretty x)).
Proof.
  unfold pretty, pretty_N. destruct (decide (x = 0%N)).
  - change (lit "0") with [48%N]. apply Forall_singleton. lia.
  - apply pretty_N_go_digits. change (lit EmptyString) with (@nil N). apply Forall_nil_2.
Qed.

(** On a platform that prints its clock as a float, the record of a
    privileged caller never contains the text [selfagent]. *)
Lemma main_record_clean (e : Env) (now : Z) :
  System.float_like e ->
  contains (lit "selfagent") (marker_content e now true) = false
  /\ contains (lit "selfagent") (override_content e now) = false.
Proof.
  intros Hfloat.
  assert (Hno : forall tail, 115%N ∉ tail ->
                  115%N ∉ lit (pretty (getpid e)) ++ lit "|" ++ repr_time e now ++ tail).
  { intros tail Htail Hin.
    apply elem_of_app in Hin as [Hin|Hin].
    - pose proof (pretty_N_digits (getpid e)) as Hd.
      rewrite Forall_forall in Hd. apply Hd in Hin. lia.
    - apply elem_of_app in Hin as [Hin|Hin].
      + apply list_elem_of_singleton in Hin. done.
      + apply elem_of_app in Hin as [Hin|Hin]; [by apply (Hfloat now)|done]. }
  split.
  - destruct (contains (lit "selfagent") (marker_content e now true)) eqn:Hc; [|done].
    apply contains_head in Hc. unfold marker_content in Hc. exfalso.
    revert Hc. apply Hno. not_in_text.
  - destruct (contains (lit "selfagent") (override_content e now)) eqn:Hc; [|done].
    apply contains_head in Hc. unfold override_content in Hc. exfalso.
    revert Hc. apply Hno. not_in_text.
Qed.

(** X5.  The lock is not re-entrant.  After an [acquire] that took a free
    lock, a second [acquire] of the same object, of either role, whose
    marker nobody removes meanwhile, waits out its timeout and returns
    False, the marker being still in place: a subordinate caller never
    writes over a marker, and a privileged one does not find [selfagent]
    in its own record. *)
Theorem acquire_not_reentrant (e : Env) (l : FileLock.t) (w : World) :
  System.float_like e ->
  fs w !! lockfile l = None ->
  0 < timeout l ->
  create_fault (io e 0) = None ->
  (forall k m, others (sleeps e k) m !! lockfile l = m !! lockfile l) ->
  (forall k, cancelled (sleeps e k) = false) ->
  exists l1 w1 w2,
    acquire e l w = Some (Ok true, l1, w1)
    /\ acquire e l1 w1 = Some (Ok false, l1, w2)
    /\ fs w2 !! lockfile l = fs w1 !! lockfile l
    /\ timeout l <= clock w2 - clock w1.
Proof.
  intros Hfloat Hfree Htimeout Hwrite Hkeep Hcancel.
  eexists _, _.
  set (c := marker_content e (clock w) (is_main_agent l)).
  set (w1 := {| fs := <[lockfile l := c]> (fs w); clock := clock w |}).
  destruct (acquire_loop_blocked e (set_acquired true l)
              (fun _ m => m !! lockfile l = Some c))
    with (fuel := acquire_fuel (set_acquired true l)) (k := O) (start := clock w1) (w := w1)
    as (n & w2 & Hrun & Hfs & Hinv & Htime & _).
  - intros k now m Hm. destruct (is_main_agent l) eqn:Hrole.
    + rewrite (poll_main_held e (io e k) now (set_acquired true l) m c Hrole Hm).
      subst c. rewrite (proj1 (main_record_clean e (clock w) Hfloat)).
      by destruct (read_fault (io e k)).
    + apply poll_subordinate_held; [done|]. by eapply file_exists_lookup.
  - intros k m Hm. cbn [lockfile set_acquired] in *. by rewrite Hkeep.
  - done.
  - subst w1. cbn [fs]. apply lookup_insert_eq.
  - apply acquire_fuel_pos.
  - pose proof (acquire_fuel_enough (set_acquired true l)). lia.
  - exists w2. split; [by apply acquire_free|].
    split; [exact Hrun|]. split; [|done].
    rewrite Hinv. subst w1. cbn [fs]. by rewrite lookup_insert_eq.
Qed.

Lemma acquire_not_reentrant_witness :
  exists l1 w1 w2,
    acquire Scenario.frozen Scenario.main_on_notes Scenario.idle = Some (Ok true, l1, w1)
    /\ acquire Scenario.frozen l1 w1 = Some (Ok false, l1, w2)
    /\ fs w2 !! lockfile Scenario.main_on_notes = fs w1 !! lockfile Scenario.main_on_notes
    /\ timeout Scenario.main_on_notes <= clock w2 - clock w1.
Proof.
  apply (acquire_not_reentrant Scenario.frozen Scenario.main_on_notes Scenario.idle).
  - intros now. not_in_text.
  - reflexivity.
  - cbn. lia.
  - reflexivity.
  - intros k m. reflexivity.
  - intros k. reflexivity.
Defined.

End FileLockRoundTrips.

(** ** The context manager and the locked tools *)

Section LockedTools.
Import FileLock LockedWriteFileTool.

Lemma acquire_true (e : Env) (l l1 : FileLock.t) (w w1 : World) :
  acquire e l w = Some (Ok true, l1, w1) -> l1 = set_acquired true l.
Proof.
  intros Hrun.
  destruct (acquire_loop_outcome e l _ _ _ _ _ _ _ Hrun) as (_ & Hl & _). done.
Qed.

(** X6.  [file_lock] releases on every way out of the block.  Once the
    lock is taken, whatever the block does to the files, and whether it
    returns or raises, the context manager passes on the outcome of the
    block and the marker is not on file afterwards (the unlink going
    through); nothing else is changed by the release. *)
Theorem file_lock_releases {A} (e : Env) (filepath : str) (timeout : Z)
    (is_main_agent : bool) (body : World -> res A * World) (w w1 : World)
    (l1 : FileLock.t) :
  acquire e (FileLock.init filepath timeout is_main_agent) w = Some (Ok true, l1, w1) ->
  exists w',
    file_lock e None filepath timeout is_main_agent body w = Some ((body w1).1, w')
    /\ fs w' = delete (filepath ++ lit ".nanobot_lock") (fs (body w1).2)
    /\ fs w' !! (filepath ++ lit ".nanobot_lock") = None
    /\ clock w' = clock (body w1).2.
Proof.
  intros Hacq. apply acquire_true in Hacq as Hl1. subst l1.
  unfold file_lock. rewrite Hacq. destruct (body w1) as [r w2]. cbn [fst snd].
  unfold release. cbn [_acquired set_acquired lockfile FileLock.init andb].
  destruct (file_exists (filepath ++ lit ".nanobot_lock") (fs w2)) eqn:Hex.
  - apply file_exists_true in Hex as [c Hc]. unfold unlink. rewrite Hc. cbn.
    eexists. split; [done|]. cbn [fs clock]. split; [done|]. split; [|done].
    apply lookup_delete_eq.
  - apply file_exists_false in Hex. eexists. split; [done|]. cbn [fs clock].
    split; [by rewrite delete_id|]. done.
Qed.

Lemma file_lock_releases_witness :
  exists w',
    file_lock Scenario.calm None Scenario.notes_md 5000 false
      (fun w1 => (Raise (Exception "ValueError" "old_string not found") : res str, w1))
      Scenario.idle
    = Some (Raise (Exception "ValueError" "old_string not found"), w')
    /\ fs w' = delete (Scenario.notes_md ++ lit ".nanobot_lock")
                 (<[Scenario.notes_md ++ lit ".nanobot_lock" :=
                      marker_content Scenario.calm (clock Scenario.idle) false]>
                    (fs Scenario.idle))
    /\ fs w' !! (Scenario.notes_md ++ lit ".nanobot_lock") = None
    /\ clock w' = clock Scenario.idle.
Proof.
  assert (Hacq : acquire Scenario.calm (FileLock.init Scenario.notes_md 5000 false)
                   Scenario.idle
                 = Some (Ok true,
                         set_acquired true (FileLock.init Scenario.notes_md 5000 false),
                         {| fs := <[Scenario.notes_md ++ lit ".nanobot_lock" :=
                                      marker_content Scenario.calm (clock Scenario.idle)
                                        false]>
                                    (fs Scenario.idle);
                            clock := clock Scenario.idle |})).
  { vm_compute. reflexivity. }
  exact (file_lock_releases Scenario.calm Scenario.notes_md 5000 false
           (fun w1 => (Raise (Exception "ValueError" "old_string not found") : res str, w1))
           Scenario.idle _ _ Hacq).
Defined.

(** A block guarded by [file_lock] for a subordinate caller, on a file the
    marker of which stays in place. *)
Lemma file_lock_blocked {A} (e : Env) (unlink_fault : option string) (filepath : str)
    (timeout : Z) (body : World -> res A * World) (w : World) :
  is_Some (fs w !! (filepath ++ lit ".nanobot_lock")) ->
  (forall k m, is_Some (m !! (filepath ++ lit ".nanobot_lock")) ->
               is_Some (others (sleeps e k) m !! (filepath ++ lit ".nanobot_lock"))) ->
  (forall k, cancelled (sleeps e k) = false) ->
  exists n w1,
    file_lock e unlink_fault filepath timeout false body w
    = Some (Raise (Exception "TimeoutError" "Could not acquire lock"), w1)
    /\ fs w1 = drift e 0 n (fs w)
    /\ timeout <= clock w1 - clock w.
Proof.
  intros Hheld Hkeep Hcancel.
  set (l := FileLock.init filepath timeout false).
  destruct (acquire_loop_blocked e l (fun _ m => is_Some (m !! lockfile l)))
    with (fuel := acquire_fuel l) (k := O) (start := clock w) (w := w)
    as (n & w1 & Hrun & Hfs & _ & Htime & _).
  - intros k now m Hm. apply poll_subordinate_held; [done|]. by apply file_exists_true.
  - intros k m Hm. by apply Hkeep.
  - done.
  - done.
  - apply acquire_fuel_pos.
  - pose proof (acquire_fuel_enough l). lia.
  - exists n, w1. unfold file_lock. fold l. unfold acquire. rewrite Hrun. done.
Qed.

(** X7.  The four locked tools of the SelfAgent (the registry builds
    them with [is_main_agent=False]) never run the inherited tool without
    the lock.  On a file whose marker stays in place each of them raises
    [TimeoutError], whatever the inherited [execute] would do, after 5
    seconds for [read_file] and [list_dir] and 10 seconds for
    [write_file] and [edit_file]; the files are then what the other tasks
    made of them. *)
Theorem locked_tools_time_out (e : Env) (unlink_fault : option string)
    (_resolve_path : str -> res str) (path filepath : str) (w : World)
    (lower_cp : case_mapping)
    (read : str -> Z -> Z -> World -> res str * World) (limit offset : Z)
    (write : str -> str -> World -> res str * World) (content : str)
    (edit : str -> str -> str -> World -> res str * World) (old_string new_string : str)
    (list_dir : str -> World -> res str * World) :
  _resolve_path path = Ok filepath ->
  is_Some (fs w !! (filepath ++ lit ".nanobot_lock")) ->
  (forall k m, is_Some (m !! (filepath ++ lit ".nanobot_lock")) ->
               is_Some (others (sleeps e k) m !! (filepath ++ lit ".nanobot_lock"))) ->
  (forall k, cancelled (sleeps e k) = false) ->
  let timed_out (seconds : Z) (outcome : option (res str * World)) :=
    exists n w1,
      outcome = Some (Raise (Exception "TimeoutError" "Could not acquire lock"), w1)
      /\ fs w1 = drift e 0 n (fs w)
      /\ seconds * 1000 <= clock w1 - clock w in
  timed_out 5
    (LockedReadFileTool.execute _resolve_path read false e unlink_fault path limit offset w)
  /\ timed_out 10
       (LockedWriteFileTool.execute
          {| LockedWriteFileTool._resolve_path := _resolve_path; super_execute := write |}
          lower_cp false e unlink_fault path content w)
  /\ timed_out 10
       (LockedEditFileTool.execute _resolve_path edit false e unlink_fault path
          old_string new_string w)
  /\ timed_out 5
       (LockedListDirTool.execute _resolve_path list_dir false e unlink_fault path w).
Proof.
  intros Hpath Hheld Hkeep Hcancel timed_out. subst timed_out. cbn beta.
  unfold LockedReadFileTool.execute, LockedWriteFileTool.execute,
    LockedEditFileTool.execute, LockedListDirTool.execute.
  cbn [LockedWriteFileTool._resolve_path super_execute]. rewrite Hpath.
  repeat split; by apply file_lock_blocked.
Qed.

Lemma locked_tools_time_out_witness :
  exists n w1,
    LockedWriteFileTool.execute Scenario.plain_write Scenario.lower_ascii_only false
      Scenario.calm None (lit "notes.md") (lit "a note") Scenario.contended
    = Some (Raise (Exception "TimeoutError" "Could not acquire lock"), w1)
    /\ fs w1 = drift Scenario.calm 0 n (fs Scenario.contended)
    /\ 10 * 1000 <= clock w1 - clock Scenario.contended.
Proof.
  refine (proj1 (proj2
    (locked_tools_time_out Scenario.calm None
       (LockedWriteFileTool._resolve_path Scenario.plain_write)
       (lit "notes.md") Scenario.notes_md Scenario.contended Scenario.lower_ascii_only
       (fun _ _ _ w => (Ok (lit "text"), w)) 1000 1
       (super_execute Scenario.plain_write) (lit "a note")
       (fun _ _ _ w => (Ok (lit "edited"), w)) (lit "a") (lit "b")
       (fun _ w => (Ok (lit "listing"), w))
       _ _ _ _))).
  - reflexivity.
  - vm_compute. eauto.
  - intros k m Hm. exact Hm.
  - intros k. reflexivity.
Defined.

(** *** The tag *)

Lemma lstrip_app (x y : str) :
  lstrip (x ++ y) = match lstrip x with
                    | [] => lstrip y
                    | c :: z => (c :: z) ++ y
                    end.
Proof.
  induction x as [|c x IH]; cbn [app lstrip]; [by destruct (lstrip y)|].
  by destruct (isspace c).
Qed.

(** A text that begins with a tag ending in a printing character still
    begins with it once stripped. *)
Lemma strip_keeps_tag (content : str) :
  startswith tag (strip (tag_space ++ content)) = true.
Proof.
  unfold strip, rstrip.
  change (tag_space ++ content) with (tag ++ 32%N :: content).
  change (lstrip (tag ++ 32%N :: content)) with (tag ++ 32%N :: content).
  rewrite rev_app_distr, lstrip_app.
  destruct (lstrip (rev (32%N :: content))) as [|c z].
  - change (lstrip (rev tag)) with (rev tag). rewrite rev_involutive.
    rewrite <- (app_nil_r tag) at 2. apply startswith_app.
  - rewrite rev_app_distr, rev_involutive. apply startswith_app.
Qed.

(** X8.  The tag is never doubled: what [LockedWriteFileTool.execute]
    makes of a content is left as it is when it is written again, to the
    same path. *)
Theorem tagged_content_idempotent (lower_cp : case_mapping) (filepath content : str) :
  tagged_content lower_cp filepath (tagged_content lower_cp filepath content)
  = tagged_content lower_cp filepath content.
Proof.
  unfold tagged_content.
  destruct (contains (lit "memory") (lower lower_cp filepath)
            && contains (lit "MEMORY.md") filepath); [|done].
  destruct (startswith tag (strip content)) eqn:Htagged; cbn [negb].
  - by rewrite Htagged.
  - by rewrite strip_keeps_tag.
Qed.

End LockedTools.

(** ** Privileged callers under the cooperative scheduler *)

Section PrivilegedExclusion.
Import FileLock System.

Lemma step_keeps_standing (a : action) (s : state) (p : str) :
  standing p s ->
  (step a s).1 <> EvReleased p true ->
  standing p (step a s).2 /\ forall main, (step a s).1 <> EvAcquired p main.
Proof.
  intros (c & Hc & Hclean) Hev. destruct a as [i e f now | i uf]; unfold step in *.
  - destruct (pool s !! i) as [l|]; [|split; [by exists c|done]].
    destruct (decide (lockfile l = p)) as [Hsame|Hdiff].
    + assert (Hretry : poll e f now l (files s) = Ok (Retry (files s))).
      { destruct (is_main_agent l) eqn:Hrole.
        - rewrite (poll_main_held e f now l (files s) c Hrole) by by rewrite Hsame.
          rewrite Hclean. by destruct (read_fault f).
        - apply poll_subordinate_held; [done|].
          apply (file_exists_lookup _ c). by rewrite Hsame. }
      rewrite Hretry. cbn [fst snd files]. split; [by exists c|done].
    + destruct (poll_frame e f now l (files s)) as (pl & Hp & Hother & _).
      rewrite Hp.
      assert (Hstill : files_of pl !! p = Some c) by (by rewrite Hother).
      destruct pl as [m'|m']; cbn [fst snd files files_of] in *.
      * split; [by exists c|]. intros main [= ? _]. done.
      * split; [by exists c|done].
  - destruct (pool s !! i) as [l|]; [|split; [by exists c|done]].
    destruct (release_total uf l (files s)) as (l' & m' & Hr & _ & _ & Hother & Hm').
    rewrite Hr in *. cbn [fst snd files] in *. split; [|done].
    exists c. split; [|done].
    destruct (decide (p = lockfile l)) as [->|Hne]; [|by rewrite Hother].
    destruct Hm' as [->|(_ & _ & _ & ->)]; [done|].
    exfalso. apply Hev. f_equal.
    rewrite (file_exists_lookup _ _ _ Hc). cbn [andb].
    assert (file_exists (lockfile l) (delete (lockfile l) (files s)) = false) as ->; [|done].
    apply file_exists_false. apply lookup_delete_eq.
Qed.

Lemma step_privileged_acquired (a : action) (s : state) (p : str) :
  match a with
  | DoPoll _ e _ _ => float_like e
  | DoRelease _ _ => True
  end ->
  (step a s).1 = EvAcquired p true ->
  standing p (step a s).2.
Proof.
  destruct a as [i e f now | i uf]; unfold step; intros Hfloat.
  - destruct (pool s !! i) as [l|]; [|done].
    destruct (poll e f now l (files s)) as [[m'|m']|x] eqn:Hp; [|done|done].
    cbn [fst snd files]. intros [= <- Hrole].
    destruct (main_record_clean e now Hfloat) as [Hmarker Hoverride].
    apply poll_acquired in Hp as [(_ & _ & ->)|(_ & _ & _ & ->)].
    + eexists. split; [apply lookup_insert_eq|]. by rewrite Hrole.
    + eexists. split; [apply lookup_insert_eq|done].
  - destruct (pool s !! i) as [l|]; [|done].
    by destruct (release uf l (files s)) as [[l' m']|x].
Qed.

Lemma standing_until_released (p : str) (main : bool) (t2 t3 : list event) :
  forall (sched : list action) (s : state),
    standing p s ->
    (run sched s).1 = t2 ++ EvAcquired p main :: t3 ->
    In (EvReleased p true) t2.
Proof.
  induction t2 as [|ev t2 IH]; intros sched s Hst Hrun.
  - destruct sched as [|a rest]; [done|].
    rewrite run_cons in Hrun. cbn [fst app] in Hrun. injection Hrun as Hev _.
    destruct (decide ((step a s).1 = EvReleased p true)) as [Hrel|Hne]; [congruence|].
    destruct (step_keeps_standing a s p Hst Hne) as [_ Hno]. by destruct (Hno main).
  - destruct sched as [|a rest]; [done|].
    rewrite run_cons in Hrun. cbn [fst app] in Hrun. injection Hrun as Hev Hrest.
    destruct (decide (ev = EvReleased p true)) as [->|Hne]; [by left|].
    right. apply (IH rest (step a s).2); [|done].
    apply step_keeps_standing; [done|]. by rewrite Hev.
Qed.

(** X9.  Nobody takes a lock from a privileged holder.  On platforms that
    print the clock as a float, in every schedule of a pool of lock
    objects of either role, between an [acquire] of a privileged caller
    that succeeds and the next [acquire] on the same marker that succeeds,
    by a caller of either role, some [release] has removed the marker. *)
Theorem privileged_holder_excludes_all (sched : list action) (s : state)
    (p : str) (main : bool) (t1 t2 t3 : list event) :
  float_like_schedule sched ->
  (run sched s).1 = t1 ++ EvAcquired p true :: t2 ++ EvAcquired p main :: t3 ->
  In (EvReleased p true) t2.
Proof.
  revert sched s. induction t1 as [|ev t1 IH]; intros sched s Hfloat Hrun.
  - destruct sched as [|a rest]; [done|].
    rewrite run_cons in Hrun. cbn [fst app] in Hrun. injection Hrun as Hev Hrest.
    apply Forall_cons in Hfloat as [Ha _].
    eapply standing_until_released; [|exact Hrest].
    by apply step_privileged_acquired.
  - destruct sched as [|a rest]; [done|].
    rewrite run_cons in Hrun. cbn [fst app] in Hrun. injection Hrun as _ Hrest.
    apply Forall_cons in Hfloat as [_ Hrest_float].
    by eapply IH.
Qed.

Lemma privileged_holder_excludes_all_witness :
  In (EvReleased (lockfile Scenario.main_on_notes) true)
     [EvRetry (lockfile Scenario.main_on_notes) false;
      EvRetry (lockfile Scenario.main_on_notes) true;
      EvReleased (lockfile Scenario.main_on_notes) true].
Proof.
  apply (privileged_holder_excludes_all
           [ DoPoll 2 Scenario.frozen no_fault 10; DoPoll 0 Scenario.frozen no_fault 20;
             DoPoll 2 Scenario.frozen no_fault 30; DoRelease 2 None;
             DoPoll 1 Scenario.frozen no_fault 40 ]
           Scenario.trio (lockfile Scenario.main_on_notes) false
           []
           [EvRetry (lockfile Scenario.main_on_notes) false;
            EvRetry (lockfile Scenario.main_on_notes) true;
            EvReleased (lockfile Scenario.main_on_notes) true]
           []).
  - repeat constructor; intros now; not_in_text.
  - vm_compute. reflexivity.
Defined.

End PrivilegedExclusion.

(** ** More on the observation buffers *)

Section BufferWindow.
Import SelfAgent.

Lemma append_limited_window {A} (buf : list A) (x : A) :
  (exists dropped, buf ++ [x] = dropped ++ append_limited buf x)
  /\ (Nat.min 500 (length buf + 1) <= length (append_limited buf x))%nat.
Proof.
  unfold append_limited.
  destruct (Nat.ltb_spec 1000 (length (buf ++ [x]))) as [Hover|Hfit].
  - split.
    + eexists. symmetry. apply last_n_suffix.
    + rewrite last_n_length; lia.
  - split; [by exists []|]. rewrite length_app. cbn [length]. lia.
Qed.

Lemma foldl_append_limited_window {A} (xs : list A) :
  forall buf : list A,
    (exists dropped, buf ++ xs = dropped ++ foldl append_limited buf xs)
    /\ (Nat.min 500 (length buf + length xs)
        <= length (foldl append_limited buf xs))%nat.
Proof.
  induction xs as [|x xs IH]; intros buf; cbn [foldl length].
  - split; [exists []; by rewrite app_nil_r|]. lia.
  - destruct (append_limited_window buf x) as [[d Hd] Hfloor].
    destruct (IH (append_limited buf x)) as [[d' Hd'] Hfloor'].
    split.
    + exists (d ++ d').
      rewrite (cons_middle x buf xs), app_assoc, Hd, <- !app_assoc. by rewrite Hd'.
    + lia.
Qed.

(** X10.  Each buffer is a window on what was observed: after any run of
    arrivals it is an end piece of the old content followed by the new
    entries, in their order and without a gap, and it holds 500 entries
    at least as soon as that many were there to keep. *)
Theorem buffers_are_windows (a : Agent) (xs : list Arrival) :
  ((exists dropped,
      _message_buffer a ++ message_entries xs
      = dropped ++ _message_buffer (foldl deliver a xs))
   /\ (Nat.min 500 (length (_message_buffer a) + length (message_entries xs))
       <= length (_message_buffer (foldl deliver a xs)))%nat)
  /\ ((exists dropped,
         _state_buffer a ++ state_entries xs
         = dropped ++ _state_buffer (foldl deliver a xs))
      /\ (Nat.min 500 (length (_state_buffer a) + length (state_entries xs))
          <= length (_state_buffer (foldl deliver a xs)))%nat).
Proof.
  destruct (deliver_buffers xs a) as [-> ->].
  split; apply foldl_append_limited_window.
Qed.

Lemma foldl_append_limited_lossless {A} (xs : list A) :
  forall buf : list A,
    (length buf + length xs <= 1000)%nat ->
    foldl append_limited buf xs = buf ++ xs.
Proof.
  induction xs as [|x xs IH]; intros buf Hfit; cbn [foldl length] in *.
  - by rewrite app_nil_r.
  - assert (append_limited buf x = buf ++ [x]) as ->.
    { unfold append_limited.
      destruct (Nat.ltb_spec 1000 (length (buf ++ [x]))) as [Hover|_]; [|done].
      rewrite length_app in Hover. cbn [length] in Hover. lia. }
    rewrite IH, <- app_assoc; [done|]. rewrite length_app. cbn [length]. lia.
Qed.

(** X11.  Nothing is lost below the limit: as long as a buffer and what
    arrives for it make up 1000 entries at most, the buffer afterwards is
    the old content followed by all the new entries. *)
Theorem buffers_lossless_below_limit (a : Agent) (xs : list Arrival) :
  (length (_message_buffer a) + length (message_entries xs) <= 1000)%nat ->
  (length (_state_buffer a) + length (state_entries xs) <= 1000)%nat ->
  _message_buffer (foldl deliver a xs) = _message_buffer a ++ message_entries xs
  /\ _state_buffer (foldl deliver a xs) = _state_buffer a ++ state_entries xs.
Proof.
  intros Hm Hs. destruct (deliver_buffers xs a) as [-> ->].
  split; by apply foldl_append_limited_lossless.
Qed.

Lemma buffers_lossless_below_limit_witness :
  _message_buffer (foldl deliver fresh (Scenario.burst 0 1000))
    = _message_buffer fresh ++ message_entries (Scenario.burst 0 1000)
  /\ _state_buffer (foldl deliver fresh (Scenario.burst 0 1000))
     = _state_buffer fresh ++ state_entries (Scenario.burst 0 1000).
Proof.
  apply (buffers_lossless_below_limit fresh (Scenario.burst 0 1000)).
  - vm_compute. lia.
  - vm_compute. lia.
Defined.

Lemma message_entries_previews (xs : list Arrival) :
  Forall (fun entry => (length (m_preview entry) <= 300)%nat) (message_entries xs).
Proof.
  induction xs as [|x xs IH]; [by apply Forall_nil_2|].
  destruct x as [now direction channel text | now event data |];
    cbn [message_entries flat_map app]; [|done|done].
  apply Forall_cons_2; [|done].
  cbn [m_preview message_entry]. unfold slice_to. rewrite length_take. lia.
Qed.

(** X12.  No preview in the message buffer is longer than 300 characters:
    if that holds of the buffer it holds of it after any run of arrivals
    (it is empty at first). *)
Theorem previews_are_short (a : Agent) (xs : list Arrival) :
  Forall (fun entry => (length (m_preview entry) <= 300)%nat) (_message_buffer a) ->
  Forall (fun entry => (length (m_preview entry) <= 300)%nat)
    (_message_buffer (foldl deliver a xs)).
Proof.
  intros Hold.
  destruct (foldl_append_limited_window (message_entries xs) (_message_buffer a))
    as [[dropped Hwindow] _].
  rewrite <- (proj1 (deliver_buffers xs a)) in Hwindow.
  assert (Hall : Forall (fun entry => (length (m_preview entry) <= 300)%nat)
                   (_message_buffer a ++ message_entries xs)).
  { apply Forall_app. split; [done|apply message_entries_previews]. }
  rewrite Hwindow in Hall. by apply Forall_app in Hall as [_ Hnew].
Qed.

Lemma previews_are_short_witness :
  Forall (fun entry => (length (m_preview entry) <= 300)%nat)
    (_message_buffer
       (foldl deliver fresh
          [Message (lit "t0") (lit "inbound") None (repeat 120%N 400)])).
Proof.
  apply (previews_are_short fresh
           [Message (lit "t0") (lit "inbound") None (repeat 120%N 400)]).
  apply Forall_nil_2.
Defined.

(** X13.  The warning of [_on_main_state_change] is logged for the state
    changes whose event is [error], for those only, and in their order:
    a run of arrivals adds to the log exactly one record for each of them,
    carrying its data. *)
Theorem errors_are_reported (a : Agent) (xs : list Arrival) :
  log (foldl deliver a xs) = log a ++ error_reports xs.
Proof.
  revert a. induction xs as [|x xs IH]; intros a; cbn [foldl error_reports flat_map].
  - by rewrite app_nil_r.
  - rewrite IH. fold (error_reports xs). rewrite app_assoc. f_equal.
    destruct x as [now direction channel text | now event data |]; cbn [deliver].
    + by rewrite app_nil_r.
    + unfold _on_main_state_change.
      by destruct (bool_decide (event = lit "error")); [|rewrite app_nil_r].
    + by rewrite app_nil_r.
Qed.

End BufferWindow.

(** ** More on the agent loop *)

Section AgentLoopMore.
Import SelfAgent.
Context {E : Type} (c : Collaborators E) (cfg : Config).

Lemma counted_weaken {A} (n n' : nat) (m : M E A) :
  (n <= n')%nat -> counted n m -> counted n' m.
Proof. intros Hle Hm w r w' Hrun. specialize (Hm w r w' Hrun). lia. Qed.

Lemma counted_ret {A} (a : A) : counted 0 (ret (E := E) a).
Proof. intros w r w' [= <- <-]. lia. Qed.

Lemma counted_raise {A} (x : exn) : counted 0 (raise (E := E) (A := A) x).
Proof. intros w r w' [= <- <-]. lia. Qed.

Lemma counted_logger (r : LogRecord) :
  counted (if is_iteration r then 1 else 0) (logger c cfg r).
Proof.
  intros w r' w' [= _ <-]. cbn [agent log logged].
  rewrite iterations_logged_snoc. lia.
Qed.

Lemma counted_external {A} (f : E -> res A * E) : counted 0 (external f).
Proof.
  intros w r w'. unfold external. destruct (f (ext w)) as [r0 x].
  intros [= <- <-]. cbn [agent]. lia.
Qed.

Lemma counted_suspend : counted 0 (suspend (E := E)).
Proof.
  intros w r w'. unfold suspend. destruct (tape w) as [|k rest].
  - intros [= <- <-]. lia.
  - intros [= _ <-]. cbn [agent]. rewrite foldl_deliver_iterations. lia.
Qed.

Lemma counted_bind {A B} (a b : nat) (m : M E A) (k : A -> M E B) :
  counted a m -> (forall x, counted b (k x)) -> counted (a + b) (bind m k).
Proof.
  intros Hm Hk w r w' Hrun. unfold bind in Hrun.
  destruct (m w) as [[x|x] w1] eqn:Hmw.
  - specialize (Hm _ _ _ Hmw). specialize (Hk x _ _ _ Hrun). lia.
  - injection Hrun as <- <-. specialize (Hm _ _ _ Hmw). lia.
Qed.

Lemma counted_try {A} (a b : nat) (m : M E A) (h : exn -> M E A) :
  counted a m -> (forall x, counted b (h x)) -> counted (a + b) (try_except_Exception m h).
Proof.
  intros Hm Hh w r w' Hrun. unfold try_except_Exception in Hrun.
  destruct (m w) as [[x|x] w1] eqn:Hmw.
  - injection Hrun as <- <-. specialize (Hm _ _ _ Hmw). lia.
  - specialize (Hm _ _ _ Hmw). destruct (is_Exception x).
    + specialize (Hh x _ _ _ Hrun). lia.
    + injection Hrun as <- <-. lia.
Qed.

Lemma counted_tool_calls (calls : list ToolCall) :
  forall messages, counted 0 (execute_tool_calls c cfg calls messages).
Proof.
  induction calls as [|tool_call rest IH]; intros messages; cbn [execute_tool_calls].
  - apply counted_ret.
  - apply (counted_bind 0 0); [apply (counted_logger (ExecutingTool _))|intros _].
    apply (counted_bind 0 0); [apply counted_suspend|intros _].
    apply (counted_bind 0 0); [apply counted_external|intros result].
    apply IH.
Qed.

Lemma counted_iteration (iteration : nat) (messages : list ChatMessage) :
  counted 1 (guarded_iteration c cfg iteration messages).
Proof.
  apply (counted_try 1 0).
  - unfold iteration_body.
    apply (counted_bind 0 1); [apply counted_suspend|intros _].
    apply (counted_bind 0 1); [apply counted_external|intros response].
    apply (counted_bind 1 0); [apply (counted_logger (IterationDebug _ _))|intros _].
    destruct (negb (has_tool_calls response)); [apply counted_ret|].
    apply (counted_bind 0 0); [apply counted_tool_calls|intros messages'].
    apply counted_ret.
  - intros x.
    apply (counted_bind 0 0); [apply (counted_logger (AgentLoopError _ _))|intros _].
    apply counted_raise.
Qed.

Lemma counted_agent_loop (n : nat) :
  forall iteration messages, counted n (agent_loop_from c cfg n iteration messages).
Proof.
  induction n as [|n IH]; intros iteration messages; cbn [agent_loop_from].
  - apply counted_ret.
  - apply (counted_bind 1 n); [apply counted_iteration|intros [result|messages']].
    + apply (counted_weaken 0); [lia|apply counted_ret].
    + apply IH.
Qed.

(** X14.  Whatever the provider and the tools do (answer, raise, ask for
    tools for ever), [_run_agent_loop] goes through the body of its loop
    [max_iterations] times at most; with [max_iterations] at 0 or below it
    returns [Max iterations reached] at once, without a call to the
    provider and with the world as it was. *)
Theorem agent_loop_is_bounded (system_prompt user_prompt : str) (w : World E) :
  (forall r w',
     _run_agent_loop c cfg system_prompt user_prompt w = (r, w') ->
     Z.of_nat (iterations_logged (log (agent w')))
     <= Z.of_nat (iterations_logged (log (agent w))) + Z.max 0 (max_iterations cfg))
  /\ (max_iterations cfg <= 0 ->
      _run_agent_loop c cfg system_prompt user_prompt w
      = (Ok (lit "Max iterations reached"), w)).
Proof.
  split.
  - intros r w' Hrun. apply counted_agent_loop in Hrun. lia.
  - intros Hmax. unfold _run_agent_loop.
    replace (Z.to_nat (max_iterations cfg)) with O by lia. done.
Qed.

(** X15.  A first response that carries no tool call ends the loop: with
    [max_iterations] at least 1, [_run_agent_loop] returns the content of
    that response (the empty text when it has none) after one call to the
    provider, having logged that one iteration and executed no tool.  The
    line of the iteration is one the console handler prints, or does not
    see. *)
Theorem agent_loop_returns_first_answer (system_prompt user_prompt : str)
    (w w0 : World E) (response : Response) (x' : E) :
  1 <= max_iterations cfg ->
  suspend w = (Ok tt, w0) ->
  chat c [ {| role := lit "system"; tool_call_id := None; msg_content := system_prompt |};
           {| role := lit "user"; tool_call_id := None; msg_content := user_prompt |} ]
       (ext w0)
  = (Ok response, x') ->
  has_tool_calls response = false ->
  emit c cfg (IterationDebug 1 (shown response)) = Ok tt ->
  _run_agent_loop c cfg system_prompt user_prompt w
  = (Ok (or_empty (content response)),
     mkWorld (logged (IterationDebug 1 (shown response)) (agent w0)) (tape w0) x').
Proof.
  intros Hmax Hsuspend Hchat Hdone Hprint. unfold _run_agent_loop.
  destruct (Z.to_nat (max_iterations cfg)) as [|n] eqn:Hn; [lia|].
  cbn [agent_loop_from]. unfold guarded_iteration, try_except_Exception, iteration_body.
  unfold bind at 1. rewrite (bind_ok _ _ _ _ _ Hsuspend).
  assert (Hext : external (chat c
                   [ {| role := lit "system"; tool_call_id := None;
                        msg_content := system_prompt |};
                     {| role := lit "user"; tool_call_id := None;
                        msg_content := user_prompt |} ]) w0
                 = (Ok response, mkWorld (agent w0) (tape w0) x')).
  { unfold external. by rewrite Hchat. }
  rewrite (bind_ok _ _ _ _ _ Hext). fold (shown response).
  change (0 + 1)%nat with 1%nat.
  rewrite (bind_ok _ _ _ _ _ (logger_ok c cfg _ _ Hprint)), Hdone.
  reflexivity.
Qed.

(** One pass through the body of the loop when the provider raises. *)
Lemma iteration_provider_raises (iteration : nat) (messages : list ChatMessage)
    (w w0 : World E) (x : exn) (x' : E) :
  suspend w = (Ok tt, w0) ->
  chat c messages (ext w0) = (Raise x, x') ->
  guarded_iteration c cfg iteration messages w
  = if is_Exception x
    then (match emit c cfg (AgentLoopError (iteration + 1) x) with
          | Ok _ => Raise x
          | Raise y => Raise y
          end,
          mkWorld (logged (AgentLoopError (iteration + 1) x) (agent w0)) (tape w0) x')
    else (Raise x, mkWorld (agent w0) (tape w0) x').
Proof.
  intros Hsuspend Hchat.
  unfold guarded_iteration, try_except_Exception, iteration_body.
  rewrite (bind_ok _ _ _ _ _ Hsuspend).
  assert (Hext : external (chat c messages) w0
                 = (Raise x, mkWorld (agent w0) (tape w0) x')).
  { unfold external. by rewrite Hchat. }
  rewrite (bind_raise _ _ _ _ _ Hext).
  destruct (is_Exception x); [|done].
  unfold bind. rewrite logger_run.
  by destruct (emit c cfg (AgentLoopError (iteration + 1) x)).
Qed.

(** The loop, from any iteration on, when the provider raises at once. *)
Lemma loop_provider_raises (n iteration : nat) (messages : list ChatMessage)
    (w w0 : World E) (x : exn) (x' : E) :
  suspend w = (Ok tt, w0) ->
  chat c messages (ext w0) = (Raise x, x') ->
  (is_Exception x = true -> emit c cfg (AgentLoopError (iteration + 1) x) = Ok tt) ->
  agent_loop_from c cfg (S n) iteration messages w
  = (Raise x,
     mkWorld
       (if is_Exception x
        then logged (AgentLoopError (iteration + 1) x) (agent w0) else agent w0)
       (tape w0) x').
Proof.
  intros Hsuspend Hchat Hprint. cbn [agent_loop_from].
  assert (Hiter : guarded_iteration c cfg iteration messages w
                  = (Raise x,
                     mkWorld
                       (if is_Exception x
                        then logged (AgentLoopError (iteration + 1) x) (agent w0)
                        else agent w0)
                       (tape w0) x')).
  { rewrite (iteration_provider_raises iteration _ _ _ _ _ Hsuspend Hchat).
    destruct (is_Exception x); [|done]. by rewrite Hprint. }
  by rewrite (bind_raise _ _ _ _ _ Hiter).
Qed.

(** X16.  An exception of the provider ends the loop and reaches the
    caller: one of class [Exception] after the loop has logged it with
    the number of the iteration, in a line the console handler prints;
    any other (a cancellation, a [KeyboardInterrupt]) without a record.
    In both cases no tool is executed and no further call is made. *)
Theorem agent_loop_reraises (system_prompt user_prompt : str)
    (w w0 : World E) (x : exn) (x' : E) :
  1 <= max_iterations cfg ->
  suspend w = (Ok tt, w0) ->
  chat c [ {| role := lit "system"; tool_call_id := None; msg_content := system_prompt |};
           {| role := lit "user"; tool_call_id := None; msg_content := user_prompt |} ]
       (ext w0)
  = (Raise x, x') ->
  (is_Exception x = true -> emit c cfg (AgentLoopError 1 x) = Ok tt) ->
  _run_agent_loop c cfg system_prompt user_prompt w
  = (Raise x,
     mkWorld
       (if is_Exception x then logged (AgentLoopError 1 x) (agent w0) else agent w0)
       (tape w0) x').
Proof.
  intros Hmax Hsuspend Hchat Hprint. unfold _run_agent_loop.
  destruct (Z.to_nat (max_iterations cfg)) as [|n] eqn:Hn; [lia|].
  exact (loop_provider_raises n 0 _ _ _ _ _ Hsuspend Hchat Hprint).
Qed.

Lemma suspend_ext (w w' : World E) (r : res unit) :
  suspend w = (r, w') -> ext w' = ext w.
Proof.
  unfold suspend. destruct (tape w) as [|k rest]; [by intros [= _ <-]|].
  by intros [= _ <-].
Qed.

(** X17.  The tool calls of a response are answered one by one and in
    order.  When all of them return, the results are those the registry
    gives when it is handed the calls one after the other, each on the
    state the call before it left, which is the state the loop ends in;
    and the conversation has grown by exactly one [tool] message for each
    call, in the order of the calls, each with the id and the result of
    its call. *)
Theorem tool_results_in_order (calls : list ToolCall) :
  forall (messages messages' : list ChatMessage) (w w' : World E),
    execute_tool_calls c cfg calls messages w = (Ok messages', w') ->
    exists results,
      answers c calls (ext w) = (Ok results, ext w')
      /\ length results = length calls
      /\ messages' = messages ++ zip_with tool_message calls results.
Proof.
  induction calls as [|tool_call rest IH]; intros messages messages' w w';
    cbn [execute_tool_calls answers].
  - intros [= <- <-]. exists []. by rewrite app_nil_r.
  - unfold bind at 1. rewrite logger_run.
    destruct (emit c cfg (ExecutingTool (tc_name tool_call))); [|done].
    unfold bind at 1.
    destruct (suspend _) as [[u|x] w1] eqn:Hsuspend; [|done].
    apply suspend_ext in Hsuspend. cbn [ext] in Hsuspend.
    unfold bind at 1. unfold external. rewrite Hsuspend.
    destruct (tools_execute c (tc_name tool_call) (tc_arguments tool_call) (ext w))
      as [[result|x] x1]; [|done].
    intros Hrest. apply IH in Hrest as (results & Hrun & Hlen & ->).
    cbn [ext] in Hrun. rewrite Hrun.
    exists (result :: results). cbn [length zip_with]. split; [done|].
    split; [by rewrite Hlen|]. by rewrite <- app_assoc.
Qed.

End AgentLoopMore.

Lemma agent_loop_returns_first_answer_witness :
  SelfAgent._run_agent_loop Scenario.decided Scenario.verbose
    (lit "system") (lit "reflect") Scenario.at_rest
  = (Ok (lit "nothing to add"),
     SelfAgent.mkWorld
       (SelfAgent.logged (SelfAgent.IterationDebug 1 (lit "nothing to add"))
          SelfAgent.started)
       [] 1%nat).
Proof.
  apply (agent_loop_returns_first_answer Scenario.decided Scenario.verbose
           (lit "system") (lit "reflect") Scenario.at_rest Scenario.at_rest
           {| SelfAgent.content := Some (lit "nothing to add");
              SelfAgent.has_tool_calls := false;
              SelfAgent.tool_calls := [] |} 1%nat).
  - cbn. lia.
  - reflexivity.
  - reflexivity.
  - reflexivity.
  - reflexivity.
Defined.

Lemma agent_loop_reraises_witness :
  SelfAgent._run_agent_loop Scenario.unreachable Scenario.three_rounds
    (lit "system") (lit "reflect") Scenario.at_rest
  = (Raise (Exception "ConnectionError" "provider unreachable"),
     SelfAgent.mkWorld
       (SelfAgent.logged
          (SelfAgent.AgentLoopError 1 (Exception "ConnectionError" "provider unreachable"))
          SelfAgent.started)
       [] 1%nat).
Proof.
  apply (agent_loop_reraises Scenario.unreachable Scenario.three_rounds
           (lit "system") (lit "reflect") Scenario.at_rest Scenario.at_rest
           (Exception "ConnectionError" "provider unreachable") 1%nat).
  - cbn. lia.
  - reflexivity.
  - reflexivity.
  - intros _. reflexivity.
Defined.

(** Two calls on tools that answer with the number of the calls made
    before: the first message carries [0], the second [1]. *)
Lemma tool_results_in_order_witness :
  exists results,
    SelfAgent.answers Scenario.numbering
      [ SelfAgent.mkToolCall (lit "a") (lit "list_dir") [];
        SelfAgent.mkToolCall (lit "b") (lit "read_file") [] ]
      0%nat
    = (Ok results, 2%nat)
    /\ length results = 2%nat
    /\ [ SelfAgent.tool_message (SelfAgent.mkToolCall (lit "a") (lit "list_dir") [])
           (lit "0");
         SelfAgent.tool_message (SelfAgent.mkToolCall (lit "b") (lit "read_file") [])
           (lit "1") ]
       = [] ++ zip_with SelfAgent.tool_message
                 [ SelfAgent.mkToolCall (lit "a") (lit "list_dir") [];
                   SelfAgent.mkToolCall (lit "b") (lit "read_file") [] ]
                 results.
Proof.
  apply (tool_results_in_order Scenario.numbering Scenario.three_rounds
           [ SelfAgent.mkToolCall (lit "a") (lit "list_dir") [];
             SelfAgent.mkToolCall (lit "b") (lit "read_file") [] ]
           [] _ Scenario.at_rest
           (SelfAgent.mkWorld
              (SelfAgent.logged (SelfAgent.ExecutingTool (lit "read_file"))
                 (SelfAgent.logged (SelfAgent.ExecutingTool (lit "list_dir"))
                    SelfAgent.started))
              [] 2%nat)).
  vm_compute. reflexivity.
Defined.

(** ** More on the reflection loop *)

Section SchedulerMore.
Import SelfAgent.
Context {E : Type} (c : Collaborators E) (cfg : Config).

(** X18.  A cancellation that arrives during the sleep ends the loop
    without an error and without a reflection: the loop logs it and
    returns, the provider is not called, and the buffers are not drained
    (they hold what they held, and what arrived during that sleep). *)
Theorem cancelled_sleep_ends_the_loop (w : World E) (k : Wake) (rest : list Wake)
    (fuel : nat) :
  _running (agent w) = true ->
  tape w = k :: rest ->
  cancelled k = true ->
  let a' := foldl deliver (agent w) (arrivals k) in
  reflection_ticks c cfg (S fuel) w
  = Some (Ok tt, mkWorld (logged ReflectionLoopCancelled a') rest (ext w))
  /\ _message_buffer a'
     = foldl append_limited (_message_buffer (agent w)) (message_entries (arrivals k))
  /\ _state_buffer a'
     = foldl append_limited (_state_buffer (agent w)) (state_entries (arrivals k)).
Proof.
  intros Hrunning Htape Hcancel a'. split; [|apply deliver_buffers].
  assert (Hsleep : suspend w = (Raise CancelledError, mkWorld a' rest (ext w))).
  { unfold suspend. by rewrite Htape, Hcancel. }
  cbn [reflection_ticks]. rewrite Hrunning. unfold reflection_tick.
  rewrite (bind_raise _ _ _ _ _ Hsleep).
  by rewrite (bind_ok _ _ _ _ _
                (logger_ok c cfg ReflectionLoopCancelled _
                   (emit_fixed c cfg ReflectionLoopCancelled eq_refl))).
Qed.

(** What a reflection does once it has found something in the buffers. *)
Lemma perform_reflection_busy (w0 : World E) :
  is_nil (_message_buffer (agent w0)) && is_nil (_state_buffer (agent w0)) = false ->
  _perform_reflection c cfg w0
  = (do user_prompt <-
       lift (_build_reflection_prompt c (_message_buffer (agent w0))
               (_state_buffer (agent w0))) ;
     do result <- _run_agent_loop c cfg (_build_system_prompt cfg) user_prompt ;
     _log_reflection c cfg (Completed (slice_to 100 result)))
      (mkWorld
         (logged (Reflection (Analyzing (length (_message_buffer (agent w0)))
                                (length (_state_buffer (agent w0)))))
            (set_buffers [] [] (agent w0)))
         (tape w0) (ext w0)).
Proof.
  intros Hbusy. unfold _perform_reflection, drain. rewrite Hbusy.
  by rewrite (bind_ok _ _ _ _ _ (log_reflection_analyzing c cfg _ _ _)).
Qed.

(** X19.  Observations that cannot be serialised cost their batch and
    nothing else.  When [json.dumps] raises while the prompt is built, the
    error is logged and the tick ends normally: the provider has not been
    called, no suspension was used, and both buffers are empty.  (Should
    the console handler not print the line of the error, which a message
    of [json.dumps] gives it no reason for, the tick ends with what the
    handler raises, everything else being the same.) *)
Theorem unserialisable_batch_is_dropped (w w0 : World E) (x : exn) :
  suspend w = (Ok tt, w0) ->
  is_nil (_message_buffer (agent w0)) && is_nil (_state_buffer (agent w0)) = false ->
  _build_reflection_prompt c (_message_buffer (agent w0)) (_state_buffer (agent w0))
  = Raise x ->
  is_Exception x = true ->
  reflection_tick c cfg w
  = (match emit c cfg (ReflectionError x) with
     | Ok _ => Ok Continue
     | Raise y => Raise y
     end,
     mkWorld
       (logged (ReflectionError x)
          (logged (Reflection (Analyzing (length (_message_buffer (agent w0)))
                                 (length (_state_buffer (agent w0)))))
             (set_buffers [] [] (agent w0))))
       (tape w0) (ext w0)).
Proof.
  intros Hsleep Hbusy Hprompt Hclass. unfold reflection_tick.
  rewrite (bind_ok _ _ _ _ _ Hsleep), (perform_reflection_busy w0 Hbusy), Hprompt.
  unfold bind at 1. unfold lift. destruct x as [|cls|cls msg]; try discriminate.
  cbn [is_Exception]. unfold bind. rewrite logger_run.
  by destruct (emit c cfg (ReflectionError (Exception cls msg))).
Qed.

(** X20.  Neither handler swallows what is not an [Exception].  When the
    provider raises a direct subclass of [BaseException] other than a
    cancellation ([KeyboardInterrupt], [SystemExit]) at the first call of
    a reflection, the loop ends with that exception, which reaches the
    task, and none of the two handlers has logged anything. *)
Theorem base_exception_ends_the_task (w w0 w1 : World E) (cls : string) (x' : E)
    (user_prompt : str) (fuel : nat) :
  _running (agent w) = true ->
  1 <= max_iterations cfg ->
  suspend w = (Ok tt, w0) ->
  is_nil (_message_buffer (agent w0)) && is_nil (_state_buffer (agent w0)) = false ->
  _build_reflection_prompt c (_message_buffer (agent w0)) (_state_buffer (agent w0))
  = Ok user_prompt ->
  suspend (mkWorld
             (logged (Reflection (Analyzing (length (_message_buffer (agent w0)))
                                    (length (_state_buffer (agent w0)))))
                (set_buffers [] [] (agent w0)))
             (tape w0) (ext w0))
  = (Ok tt, w1) ->
  chat c [ {| role := lit "system"; tool_call_id := None;
              msg_content := _build_system_prompt cfg |};
           {| role := lit "user"; tool_call_id := None; msg_content := user_prompt |} ]
       (ext w1)
  = (Raise (OtherBaseException cls), x') ->
  reflection_ticks c cfg (S fuel) w
  = Some (Raise (OtherBaseException cls), mkWorld (agent w1) (tape w1) x').
Proof.
  intros Hrunning Hmax Hsleep Hbusy Hprompt Hsuspend Hchat.
  cbn [reflection_ticks]. rewrite Hrunning. unfold reflection_tick.
  rewrite (bind_ok _ _ _ _ _ Hsleep), (perform_reflection_busy w0 Hbusy), Hprompt.
  unfold bind at 1. unfold lift. unfold _run_agent_loop.
  destruct (Z.to_nat (max_iterations cfg)) as [|n] eqn:Hn; [lia|].
  assert (Hloop : agent_loop_from c cfg (S n) 0
                     [ {| role := lit "system"; tool_call_id := None;
                          msg_content := _build_system_prompt cfg |};
                       {| role := lit "user"; tool_call_id := None;
                          msg_content := user_prompt |} ]
                     (mkWorld
                        (logged (Reflection
                                   (Analyzing (length (_message_buffer (agent w0)))
                                      (length (_state_buffer (agent w0)))))
                           (set_buffers [] [] (agent w0)))
                        (tape w0) (ext w0))
                   = (Raise (OtherBaseException cls), mkWorld (agent w1) (tape w1) x')).
  { by rewrite (loop_provider_raises c cfg n 0 _ _ _ _ _ Hsuspend Hchat). }
  rewrite (bind_raise _ _ _ _ _ Hloop).
  reflexivity.
Qed.

End SchedulerMore.

Lemma cancelled_sleep_ends_the_loop_witness :
  SelfAgent.reflection_ticks Scenario.insistent Scenario.three_rounds 1 Scenario.stopping
  = Some (Ok tt,
          SelfAgent.mkWorld
            (SelfAgent.logged SelfAgent.ReflectionLoopCancelled
               (foldl SelfAgent.deliver (SelfAgent.agent Scenario.stopping)
                  [SelfAgent.StateChange (lit "t1") (lit "error") []]))
            [] 0%nat).
Proof.
  exact (proj1 (cancelled_sleep_ends_the_loop Scenario.insistent Scenario.three_rounds
                  Scenario.stopping
                  {| SelfAgent.arrivals := [SelfAgent.StateChange (lit "t1") (lit "error") []];
                     SelfAgent.cancelled := true |}
                  [] 0%nat eq_refl eq_refl eq_refl)).
Defined.

Lemma unserialisable_batch_is_dropped_witness :
  exists w',
    SelfAgent.reflection_tick Scenario.unserialisable Scenario.three_rounds
      Scenario.observing
    = (Ok SelfAgent.Continue, w')
    /\ SelfAgent.ext w' = 0%nat
    /\ SelfAgent._message_buffer (SelfAgent.agent w') = []
    /\ SelfAgent._state_buffer (SelfAgent.agent w') = [].
Proof.
  eexists. split.
  - etransitivity.
    + eapply (unserialisable_batch_is_dropped Scenario.unserialisable
                Scenario.three_rounds Scenario.observing); reflexivity.
    + reflexivity.
  - repeat split; reflexivity.
Defined.

Lemma base_exception_ends_the_task_witness :
  exists w',
    SelfAgent.reflection_ticks Scenario.interrupted Scenario.three_rounds 1
      Scenario.observing
    = Some (Raise (OtherBaseException "KeyboardInterrupt"), w').
Proof.
  eexists.
  eapply (base_exception_ends_the_task Scenario.interrupted Scenario.three_rounds
            Scenario.observing).
  - reflexivity.
  - cbn. lia.
  - reflexivity.
  - reflexivity.
  - reflexivity.
  - reflexivity.
  - reflexivity.
Defined.
